(** * Interview coach: the action layer over the three-table schema

    A shallow embedding of [src/actions/index.ts] and of the table
    declarations that follow it.  Handlers are written in a small
    state-and-exception monad: the state is the database, the number of
    clock readings and of random identifiers consumed so far, and the log
    of data-access calls issued; exceptions are [ActionError]s, the
    engine's constraint failures and the client's failure to read a row
    back. *)

From Stdlib Require Import ZArith.
From stdpp Require Import base option strings list gmap.

Local Open Scope Z_scope.

(** ** JavaScript values and objects *)

(** The values that travel between the validated input, the handlers and
    the query builder.  A [Date] is its epoch time. *)
Inductive JsVal :=
  | JUndefined
  | JText (s : string)
  | JNum (n : Z)
  | JDate (t : Z).

(** A plain object: a finite map from property names to values.  A
    property may be present and hold [undefined], as in
    [{ idealAnswer: input.idealAnswer }] with the field not supplied. *)
Abbreviation JsObject := (gmap string JsVal).

(** [typeof value !== "undefined"] *)
Definition defined (v : JsVal) : bool :=
  match v with JUndefined => false | _ => true end.

(** An optional field of a validated input, as the value the handler reads. *)
Definition js {A} (inj : A → JsVal) (o : option A) : JsVal :=
  from_option inj JUndefined o.

(** Truthiness of an optional string: [if (input.id)] holds for a string
    that is present and not empty, and then [input.id] is that string. *)
Definition truthy (o : option string) : option string :=
  match o with
  | Some s => if decide (s = EmptyString) then None else Some s
  | None => None
  end.

(** Reading a column out of what the query builder was handed: a value of
    the wrong kind, [undefined], or no property at all give nothing. *)
Definition as_text (v : option JsVal) : option string :=
  match v with Some (JText s) => Some s | _ => None end.
Definition as_num (v : option JsVal) : option Z :=
  match v with Some (JNum n) => Some n | _ => None end.
Definition as_date (v : option JsVal) : option Z :=
  match v with Some (JDate t) => Some t | _ => None end.

(** ** The schema *)

Inductive TableName := TSessions | TQuestions | TResponses.

(** A table as the query builder sees it.  [db] of [astro:db] is a
    Drizzle ORM client over SQLite, and four of its rules matter here:

    - [from_values]: the object given to [values] becomes a row.  A column
      the object does not supply (no property, or [undefined]) is stored
      empty, or filled with [now] when it is a date declared with
      [default: NOW]; no row is built when a column that must not be
      empty is missing.
    - [set_values]: the object given to [set] changes a row.  A property
      that is absent or [undefined] is skipped and leaves its column as
      it is.
    - [primary_key]: a text primary key declared without a default.  It
      is stored empty when [values] carries none, and an empty key is
      never equal to anything.
    - [integers]: what the row holds in its number columns.  The engine
      keeps them as 64-bit integers, and a row handed back by
      [returning()] is read into JavaScript numbers: the read fails when
      one of them is not a safe integer. *)
Class Table (R : Type) := {
  table_name : TableName;
  primary_key : R → option string;
  from_values : Z → JsObject → option R;
  set_values : JsObject → R → R;
  integers : R → list Z;
}.

(** [Number.MAX_SAFE_INTEGER] and [Number.isSafeInteger]. *)
Definition MAX_SAFE_INTEGER : Z := 2 ^ 53 - 1.

Definition safe_integer (n : Z) : Prop :=
  - MAX_SAFE_INTEGER ≤ n ≤ MAX_SAFE_INTEGER.

#[global] Instance safe_integer_dec n : Decision (safe_integer n).
Proof. unfold safe_integer. apply _. Defined.

(** A row that can be read back into JavaScript values. *)
Definition readable {R} `{Table R} (r : R) : Prop := Forall safe_integer (integers r).

#[global] Instance readable_dec {R} `{Table R} (r : R) : Decision (readable r).
Proof. unfold readable. apply _. Defined.

Module InterviewSessions.
Record Row := {
  id : option string;
  userId : string;
  title : string;
  jobTitle : option string;
  companyName : option string;
  mode : option string;
  scheduledAt : option Z;
  durationMinutes : option Z;
  createdAt : Z;
  updatedAt : Z;
}.

Definition of_values (now : Z) (o : JsObject) : option Row :=
  u ← as_text (o !! "userId");
  t ← as_text (o !! "title");
  Some {| id := as_text (o !! "id");
          userId := u;
          title := t;
          jobTitle := as_text (o !! "jobTitle");
          companyName := as_text (o !! "companyName");
          mode := as_text (o !! "mode");
          scheduledAt := as_date (o !! "scheduledAt");
          durationMinutes := as_num (o !! "durationMinutes");
          createdAt := default now (as_date (o !! "createdAt"));
          updatedAt := default now (as_date (o !! "updatedAt")) |}.

Definition set (o : JsObject) (r : Row) : Row :=
  {| id := match as_text (o !! "id") with Some v => Some v | None => id r end;
     userId := default (userId r) (as_text (o !! "userId"));
     title := default (title r) (as_text (o !! "title"));
     jobTitle := match as_text (o !! "jobTitle") with Some v => Some v | None => jobTitle r end;
     companyName := match as_text (o !! "companyName") with Some v => Some v | None => companyName r end;
     mode := match as_text (o !! "mode") with Some v => Some v | None => mode r end;
     scheduledAt := match as_date (o !! "scheduledAt") with Some v => Some v | None => scheduledAt r end;
     durationMinutes :=
       match as_num (o !! "durationMinutes") with Some v => Some v | None => durationMinutes r end;
     createdAt := default (createdAt r) (as_date (o !! "createdAt"));
     updatedAt := default (updatedAt r) (as_date (o !! "updatedAt")) |}.

#[global] Instance session_eq_dec : EqDecision Row.
Proof. solve_decision. Defined.

#[global] Instance table : Table Row := {|
  table_name := TSessions;
  primary_key := id;
  from_values := of_values;
  set_values := set;
  integers r := option_list (durationMinutes r);
|}.
End InterviewSessions.

Module InterviewQuestions.
Record Row := {
  id : option string;
  sessionId : string;
  orderIndex : Z;
  question : string;
  idealAnswer : option string;
  createdAt : Z;
}.

Definition of_values (now : Z) (o : JsObject) : option Row :=
  s ← as_text (o !! "sessionId");
  i ← as_num (o !! "orderIndex");
  q ← as_text (o !! "question");
  Some {| id := as_text (o !! "id");
          sessionId := s;
          orderIndex := i;
          question := q;
          idealAnswer := as_text (o !! "idealAnswer");
          createdAt := default now (as_date (o !! "createdAt")) |}.

Definition set (o : JsObject) (r : Row) : Row :=
  {| id := match as_text (o !! "id") with Some v => Some v | None => id r end;
     sessionId := default (sessionId r) (as_text (o !! "sessionId"));
     orderIndex := default (orderIndex r) (as_num (o !! "orderIndex"));
     question := default (question r) (as_text (o !! "question"));
     idealAnswer :=
       match as_text (o !! "idealAnswer") with Some v => Some v | None => idealAnswer r end;
     createdAt := default (createdAt r) (as_date (o !! "createdAt")) |}.

#[global] Instance question_eq_dec : EqDecision Row.
Proof. solve_decision. Defined.

#[global] Instance table : Table Row := {|
  table_name := TQuestions;
  primary_key := id;
  from_values := of_values;
  set_values := set;
  integers r := [orderIndex r];
|}.
End InterviewQuestions.

Module InterviewResponses.
Record Row := {
  id : option string;
  sessionId : string;
  questionId : string;
  answer : string;
  score : option Z;
  feedback : option string;
  createdAt : Z;
}.

Definition of_values (now : Z) (o : JsObject) : option Row :=
  s ← as_text (o !! "sessionId");
  q ← as_text (o !! "questionId");
  a ← as_text (o !! "answer");
  Some {| id := as_text (o !! "id");
          sessionId := s;
          questionId := q;
          answer := a;
          score := as_num (o !! "score");
          feedback := as_text (o !! "feedback");
          createdAt := default now (as_date (o !! "createdAt")) |}.

Definition set (o : JsObject) (r : Row) : Row :=
  {| id := match as_text (o !! "id") with Some v => Some v | None => id r end;
     sessionId := default (sessionId r) (as_text (o !! "sessionId"));
     questionId := default (questionId r) (as_text (o !! "questionId"));
     answer := default (answer r) (as_text (o !! "answer"));
     score := match as_num (o !! "score") with Some v => Some v | None => score r end;
     feedback := match as_text (o !! "feedback") with Some v => Some v | None => feedback r end;
     createdAt := default (createdAt r) (as_date (o !! "createdAt")) |}.

#[global] Instance response_eq_dec : EqDecision Row.
Proof. solve_decision. Defined.

#[global] Instance table : Table Row := {|
  table_name := TResponses;
  primary_key := id;
  from_values := of_values;
  set_values := set;
  integers r := option_list (score r);
|}.
End InterviewResponses.

(** ** The database and the world a handler runs in *)

Record Db := {
  sessions : list InterviewSessions.Row;
  questions : list InterviewQuestions.Row;
  responses : list InterviewResponses.Row;
}.

(** The references the schema declares: a question names its session, a
    response its session and its question.  A row [resolves] when the
    rows it names are there; it is [referred] to when some row names
    it. *)
Definition session_referred (d : Db) (s : InterviewSessions.Row) : Prop :=
  match InterviewSessions.id s with
  | Some k => k ∈ (InterviewQuestions.sessionId <$> questions d)
              ∨ k ∈ (InterviewResponses.sessionId <$> responses d)
  | None => False
  end.

#[global] Instance session_referred_dec d s : Decision (session_referred d s).
Proof. unfold session_referred. destruct (InterviewSessions.id s); apply _. Defined.

Definition question_resolves (d : Db) (q : InterviewQuestions.Row) : Prop :=
  Some (InterviewQuestions.sessionId q) ∈ (InterviewSessions.id <$> sessions d).

#[global] Instance question_resolves_dec d q : Decision (question_resolves d q).
Proof. unfold question_resolves. apply _. Defined.

Definition question_referred (d : Db) (q : InterviewQuestions.Row) : Prop :=
  match InterviewQuestions.id q with
  | Some k => k ∈ (InterviewResponses.questionId <$> responses d)
  | None => False
  end.

#[global] Instance question_referred_dec d q : Decision (question_referred d q).
Proof. unfold question_referred. destruct (InterviewQuestions.id q); apply _. Defined.

Definition response_resolves (d : Db) (r : InterviewResponses.Row) : Prop :=
  Some (InterviewResponses.sessionId r) ∈ (InterviewSessions.id <$> sessions d)
  ∧ Some (InterviewResponses.questionId r) ∈ (InterviewQuestions.id <$> questions d).

#[global] Instance response_resolves_dec d r : Decision (response_resolves d r).
Proof. unfold response_resolves. apply _. Defined.

(** Where a table's rows live in the database, and how its rows take
    part in the references. *)
Class Stored (R : Type) `{Table R} := {
  rows : Db → list R;
  with_rows : list R → Db → Db;
  resolves : Db → R → Prop;
  referred : Db → R → Prop;
  resolves_dec :: ∀ d r, Decision (resolves d r);
  referred_dec :: ∀ d r, Decision (referred d r);
}.

#[global] Instance sessions_stored : Stored InterviewSessions.Row := {|
  rows := sessions;
  with_rows l d := {| sessions := l; questions := questions d; responses := responses d |};
  resolves _ _ := True;
  referred := session_referred;
|}.
#[global] Instance questions_stored : Stored InterviewQuestions.Row := {|
  rows := questions;
  with_rows l d := {| sessions := sessions d; questions := l; responses := responses d |};
  resolves := question_resolves;
  referred := question_referred;
|}.
#[global] Instance responses_stored : Stored InterviewResponses.Row := {|
  rows := responses;
  with_rows l d := {| sessions := sessions d; questions := questions d; responses := l |};
  resolves := response_resolves;
  referred _ _ := False;
|}.

(** One entry per call on [db]. *)
Inductive DbCall :=
  | Select (t : TableName)
  | Insert (t : TableName)
  | Update (t : TableName)
  | Delete (t : TableName).

Definition is_write (c : DbCall) : bool :=
  match c with Select _ => false | _ => true end.

(** What the handlers cannot decide: the successive readings of the clock
    ([new Date()]) and the successive random identifiers
    ([crypto.randomUUID()]). *)
Record Env := {
  clockAt : nat → Z;
  uuidAt : nat → string;
}.

Record World := {
  db : Db;
  ticks : nat;
  draws : nat;
  calls : list DbCall;
}.

(** ** Exceptions and the handler monad *)

Inductive ErrorCode := UNAUTHORIZED | NOT_FOUND.

Inductive Exn :=
  | ActionError (code : ErrorCode) (message : string)
  | SqlError (message : string)
  | RangeError (message : string).

Inductive Outcome (A : Type) :=
  | Returns (a : A)
  | Throws (e : Exn).
Arguments Returns {A} a.
Arguments Throws {A} e.

Definition M (A : Type) : Type := Env → World → Outcome A * World.

#[global] Instance M_ret : MRet M := λ A a _ w, (Returns a, w).
#[global] Instance M_bind : MBind M := λ A B f m env w,
  match m env w with
  | (Returns a, w') => f a env w'
  | (Throws e, w') => (Throws e, w')
  end.
#[global] Instance M_fmap : FMap M := λ A B f m, a ← m; mret (f a).

Definition throw {A} (e : Exn) : M A := λ _ w, (Throws e, w).

(** [new Date()] *)
Definition newDate : M Z := λ env w,
  (Returns (clockAt env (ticks w)),
   {| db := db w; ticks := S (ticks w); draws := draws w; calls := calls w |}).

(** [crypto.randomUUID()] *)
Definition randomUUID : M string := λ env w,
  (Returns (uuidAt env (draws w)),
   {| db := db w; ticks := ticks w; draws := S (draws w); calls := calls w |}).

(** ** The data-access calls

    [select], [insert], [update] and [delete] stand for the query builder
    chains [db.select().from(T).where(c).limit(n)],
    [db.insert(T).values(v).returning()],
    [db.update(T).set(v).where(c).returning()] and
    [db.delete(T).where(c).returning()].  A condition built with [eq] and
    [and] is a decidable predicate on rows; rows are kept and returned in
    table order.  Each call is logged.

    The engine enforces what the schema declares, and a statement it
    refuses changes nothing: an insert whose key is already in the table,
    an insert or update that would leave a row naming a row that is not
    there, an update that would change the key of a row that is referred
    to, a delete of a row that is referred to.  Once a statement has
    been carried out, the rows it hands back through [returning()] are
    read into JavaScript values, and that read can still fail. *)
Section data_access.
Context {R : Type} `{Stored R}.

Definition logged (c : DbCall) (d : Db) (w : World) : World :=
  {| db := d; ticks := ticks w; draws := draws w; calls := calls w ++ [c] |}.

Definition select (P : R → Prop) `{∀ r, Decision (P r)} (limit : option nat)
  : M (list R) := λ _ w,
  let found := filter P (rows (db w)) in
  (Returns (from_option (λ n, take n found) found limit),
   logged (Select table_name) (db w) w).

Definition key_taken (r : R) (l : list R) : Prop :=
  is_Some (primary_key r) ∧ primary_key r ∈ primary_key <$> l.

Definition unreadable : Exn :=
  RangeError
    "Received integer which is too large to be safely represented as a JavaScript number".

Definition unresolved : Exn := SqlError "FOREIGN KEY constraint failed".

(** [.returning()] once the statement is done and the world is [w]. *)
Definition returning (returned : list R) (w : World) : Outcome (list R) * World :=
  if decide (Forall readable returned) then (Returns returned, w)
  else (Throws unreadable, w).

Definition insert (values : JsObject) : M (list R) := λ env w,
  match from_values (clockAt env (ticks w)) values with
  | None =>
      (Throws (SqlError "NOT NULL constraint failed"), logged (Insert table_name) (db w) w)
  | Some r =>
      if decide (key_taken r (rows (db w)))
      then (Throws (SqlError "UNIQUE constraint failed"), logged (Insert table_name) (db w) w)
      else if decide (resolves (db w) r)
      then returning [r]
             (logged (Insert table_name) (with_rows (rows (db w) ++ [r]) (db w)) w)
      else (Throws unresolved, logged (Insert table_name) (db w) w)
  end.

(** What an update may do to a row, as far as references go. *)
Definition admissible (d : Db) (old new : R) : Prop :=
  resolves d new ∧ (referred d old → primary_key new = primary_key old).

Definition update (values : JsObject) (P : R → Prop) `{∀ r, Decision (P r)}
  : M (list R) := λ _ w,
  let old := rows (db w) in
  if decide (Forall (λ r, admissible (db w) r (set_values values r)) (filter P old))
  then returning (set_values values <$> filter P old)
         (logged (Update table_name)
            (with_rows ((λ r, if decide (P r) then set_values values r else r) <$> old)
               (db w)) w)
  else (Throws unresolved, logged (Update table_name) (db w) w).

Definition delete (P : R → Prop) `{∀ r, Decision (P r)} : M (list R) := λ _ w,
  let old := rows (db w) in
  if decide (Exists (referred (db w)) (filter P old))
  then (Throws unresolved, logged (Delete table_name) (db w) w)
  else returning (filter P old)
         (logged (Delete table_name) (with_rows (filter (λ r, ¬ P r) old) (db w)) w).
End data_access.

(** ** The request context *)

Module App.
Record User := { id : string }.
Record Locals := { user : option User }.
End App.

Record ActionAPIContext := { locals : option App.Locals }.

Definition unauthorized : Exn :=
  ActionError UNAUTHORIZED "You must be signed in to perform this action.".

Definition requireUser (context : ActionAPIContext) : M App.User :=
  let user := locals context ≫= App.user in
  match user with
  | None => throw unauthorized
  | Some user => mret user
  end.

(** ** Validated inputs, one record per action *)

Module CreateSession.
Record Input := {
  id : option string;
  title : string;
  jobTitle : option string;
  companyName : option string;
  mode : option string;
  scheduledAt : option Z;
  durationMinutes : option Z;
}.
End CreateSession.

Module UpdateSession.
Record Input := {
  id : string;
  title : option string;
  jobTitle : option string;
  companyName : option string;
  mode : option string;
  scheduledAt : option Z;
  durationMinutes : option Z;
}.

(** [const { id, ...rest } = input], as [Object.entries(rest)]. *)
Definition rest (input : Input) : list (string * JsVal) :=
  [ ("title", js JText (title input));
    ("jobTitle", js JText (jobTitle input));
    ("companyName", js JText (companyName input));
    ("mode", js JText (mode input));
    ("scheduledAt", js JDate (scheduledAt input));
    ("durationMinutes", js JNum (durationMinutes input)) ].
End UpdateSession.

Module DeleteSession.
Record Input := { id : string }.
End DeleteSession.

Module SaveQuestion.
Record Input := {
  id : option string;
  sessionId : string;
  orderIndex : Z;
  question : string;
  idealAnswer : option string;
}.
End SaveQuestion.

Module DeleteQuestion.
Record Input := { id : string; sessionId : string }.
End DeleteQuestion.

Module SaveResponse.
Record Input := {
  id : option string;
  sessionId : string;
  questionId : string;
  answer : string;
  score : option Z;
  feedback : option string;
}.
End SaveResponse.

Module ListResponses.
Record Input := { sessionId : option string; questionId : option string }.
End ListResponses.

(** ** The handlers

    A handler returns the property of its result object: [session],
    [sessions], [question], [response] or [responses].  Where the source
    takes it by destructuring the rows a call returned ([const [session] =
    ...]), it is the first row if there is one. *)

Definition session_not_found {A} : M A :=
  throw (ActionError NOT_FOUND "Session not found.").
Definition question_not_found {A} : M A :=
  throw (ActionError NOT_FOUND "Question not found.").
Definition response_not_found {A} : M A :=
  throw (ActionError NOT_FOUND "Response not found.").

(** [and(eq(InterviewSessions.id, id), eq(InterviewSessions.userId, user.id))] *)
Definition owned_session (id : string) (user : App.User) (s : InterviewSessions.Row) : Prop :=
  InterviewSessions.id s = Some id ∧ InterviewSessions.userId s = App.id user.

#[global] Instance owned_session_dec id user s : Decision (owned_session id user s).
Proof. unfold owned_session. apply _. Defined.

(** [and(eq(InterviewQuestions.id, id), eq(InterviewQuestions.sessionId, session))] *)
Definition question_in (id session : string) (q : InterviewQuestions.Row) : Prop :=
  InterviewQuestions.id q = Some id ∧ InterviewQuestions.sessionId q = session.

#[global] Instance question_in_dec id session q : Decision (question_in id session q).
Proof. unfold question_in. apply _. Defined.

Definition createSession (input : CreateSession.Input) (context : ActionAPIContext)
  : M (option InterviewSessions.Row) :=
  user ← requireUser context;
  id ← match CreateSession.id input with
       | Some id => mret id
       | None => randomUUID
       end;
  createdAt ← newDate;
  updatedAt ← newDate;
  inserted ← insert
    {[ "id" := JText id;
       "userId" := JText (App.id user);
       "title" := JText (CreateSession.title input);
       "jobTitle" := js JText (CreateSession.jobTitle input);
       "companyName" := js JText (CreateSession.companyName input);
       "mode" := js JText (CreateSession.mode input);
       "scheduledAt" := js JDate (CreateSession.scheduledAt input);
       "durationMinutes" := js JNum (CreateSession.durationMinutes input);
       "createdAt" := JDate createdAt;
       "updatedAt" := JDate updatedAt ]};
  mret (head inserted).

(** The loop of [updateSession] over [Object.entries(rest)]: the entries
    that are not [undefined], as an object. *)
Definition collect (rest : list (string * JsVal)) : JsObject :=
  foldl (λ updateData '(key, value),
           if defined value then <[key := value]> updateData else updateData)
        ∅ rest.

Definition updateSession (input : UpdateSession.Input) (context : ActionAPIContext)
  : M (option InterviewSessions.Row) :=
  user ← requireUser context;
  let id := UpdateSession.id input in
  let rest := UpdateSession.rest input in
  found ← select (owned_session id user) (Some 1%nat);
  match head found with
  | None => session_not_found
  | Some existing =>
      let updateData := collect rest in
      if decide (size updateData = 0%nat) then mret (Some existing)
      else
        now ← newDate;
        updated ← update (<["updatedAt" := JDate now]> updateData) (owned_session id user);
        mret (head updated)
  end.

Definition listSessions (context : ActionAPIContext) : M (list InterviewSessions.Row) :=
  user ← requireUser context;
  select (λ s, InterviewSessions.userId s = App.id user) None.

Definition deleteSession (input : DeleteSession.Input) (context : ActionAPIContext)
  : M InterviewSessions.Row :=
  user ← requireUser context;
  removed ← delete (owned_session (DeleteSession.id input) user);
  match head removed with
  | None => session_not_found
  | Some deleted => mret deleted
  end.

Definition saveQuestion (input : SaveQuestion.Input) (context : ActionAPIContext)
  : M (option InterviewQuestions.Row) :=
  user ← requireUser context;
  found ← select (owned_session (SaveQuestion.sessionId input) user) (Some 1%nat);
  match head found with
  | None => session_not_found
  | Some session =>
      createdAt ← newDate;
      let baseValues : JsObject :=
        {[ "sessionId" := JText (SaveQuestion.sessionId input);
           "orderIndex" := JNum (SaveQuestion.orderIndex input);
           "question" := JText (SaveQuestion.question input);
           "idealAnswer" := js JText (SaveQuestion.idealAnswer input);
           "createdAt" := JDate createdAt ]} in
      match truthy (SaveQuestion.id input) with
      | Some id =>
          stored ← select (λ q, InterviewQuestions.id q = Some id) (Some 1%nat);
          match head stored with
          | None => question_not_found
          | Some existing =>
              if decide (InterviewQuestions.sessionId existing ≠ SaveQuestion.sessionId input)
              then question_not_found
              else
                updated ← update baseValues (λ q, InterviewQuestions.id q = Some id);
                mret (head updated)
          end
      | None =>
          inserted ← insert baseValues;
          mret (head inserted)
      end
  end.

Definition deleteQuestion (input : DeleteQuestion.Input) (context : ActionAPIContext)
  : M InterviewQuestions.Row :=
  user ← requireUser context;
  found ← select (owned_session (DeleteQuestion.sessionId input) user) (Some 1%nat);
  match head found with
  | None => session_not_found
  | Some session =>
      removed ← delete (question_in (DeleteQuestion.id input) (DeleteQuestion.sessionId input));
      match head removed with
      | None => question_not_found
      | Some deleted => mret deleted
      end
  end.

Definition saveResponse (input : SaveResponse.Input) (context : ActionAPIContext)
  : M (option InterviewResponses.Row) :=
  user ← requireUser context;
  found ← select (owned_session (SaveResponse.sessionId input) user) (Some 1%nat);
  match head found with
  | None => session_not_found
  | Some session =>
      asked ← select (question_in (SaveResponse.questionId input) (SaveResponse.sessionId input))
                     (Some 1%nat);
      match head asked with
      | None => question_not_found
      | Some question =>
          createdAt ← newDate;
          let baseValues : JsObject :=
            {[ "sessionId" := JText (SaveResponse.sessionId input);
               "questionId" := JText (SaveResponse.questionId input);
               "answer" := JText (SaveResponse.answer input);
               "score" := js JNum (SaveResponse.score input);
               "feedback" := js JText (SaveResponse.feedback input);
               "createdAt" := JDate createdAt ]} in
          match truthy (SaveResponse.id input) with
          | Some id =>
              stored ← select (λ r, InterviewResponses.id r = Some id) (Some 1%nat);
              match head stored with
              | None => response_not_found
              | Some existing =>
                  if decide (InterviewResponses.sessionId existing ≠ SaveResponse.sessionId input)
                  then response_not_found
                  else
                    updated ← update baseValues (λ r, InterviewResponses.id r = Some id);
                    mret (head updated)
              end
          | None =>
              inserted ← insert baseValues;
              mret (head inserted)
          end
      end
  end.

Definition listResponses (input : option ListResponses.Input) (context : ActionAPIContext)
  : M (list InterviewResponses.Row) :=
  user ← requireUser context;
  owned ← select (λ s, InterviewSessions.userId s = App.id user) None;
  let allowedSessionIds : gset (option string) :=
    list_to_set (InterviewSessions.id <$> owned) in
  let requestedSession := truthy (input ≫= ListResponses.sessionId) in
  let requestedQuestion := truthy (input ≫= ListResponses.questionId) in
  match requestedSession with
  | Some s =>
      if decide (Some s ∉ allowedSessionIds) then session_not_found else mret ()
  | None => mret ()
  end;;
  all ← select (λ _ : InterviewResponses.Row, True) None;
  let filtered :=
    filter (λ r : InterviewResponses.Row,
      let matchesSession :=
        bool_decide (Some (InterviewResponses.sessionId r) ∈ allowedSessionIds) in
      let matchesRequestedSession :=
        match requestedSession with
        | Some s => bool_decide (InterviewResponses.sessionId r = s)
        | None => true
        end in
      let matchesQuestion :=
        match requestedQuestion with
        | Some q => bool_decide (InterviewResponses.questionId r = q)
        | None => true
        end in
      matchesSession && matchesRequestedSession && matchesQuestion) all in
  mret filtered.

(** ** Running a handler on concrete data *)

Definition signed_in (uid : string) : ActionAPIContext :=
  {| locals := Some {| App.user := Some {| App.id := uid |} |} |}.

Definition anonymous : ActionAPIContext := {| locals := Some {| App.user := None |} |}.

Definition start (d : Db) : World := {| db := d; ticks := 0; draws := 0; calls := [] |}.

(** A clock that advances by one at each reading, from [t0]; identifiers
    [uuid-0], [uuid-1], and so on by their first few values. *)
Definition ticking (t0 : Z) : Env :=
  {| clockAt n := t0 + Z.of_nat n;
     uuidAt n := match n with O => "uuid-0" | 1%nat => "uuid-1" | _ => "uuid-n" end |}.

(** A clock that stands still at [t0]. *)
Definition frozen (t0 : Z) : Env :=
  {| clockAt _ := t0;
     uuidAt n := match n with O => "uuid-0" | 1%nat => "uuid-1" | _ => "uuid-n" end |}.

(** ** Primary keys

    The keys present in a table, and the invariant the engine keeps: no
    key occurs twice. *)
Section keys.
Context {R : Type} `{Table R}.

Definition keys (l : list R) : list string := omap primary_key l.
Definition unique_keys (l : list R) : Prop := NoDup (keys l).
End keys.

Definition consistent (d : Db) : Prop :=
  unique_keys (sessions d) ∧ unique_keys (questions d) ∧ unique_keys (responses d).

(** A computation keeps the keys of every table unique. *)
Definition preserves {A} (m : M A) : Prop :=
  ∀ env w, consistent (db w) → consistent (db (m env w).2).

(** The two facts that tie a table's rows to [consistent]. *)
Class StoredLaws (R : Type) `{Stored R} := {
  rows_unique : ∀ d, consistent d → unique_keys (rows d);
  with_rows_consistent : ∀ d l, consistent d → unique_keys l → consistent (with_rows l d);
}.

(** What the update of [updateSession] makes of a row it matches, when
    the clock reads [now]. *)
Definition patched (input : UpdateSession.Input) (now : Z) (r : InterviewSessions.Row)
  : InterviewSessions.Row :=
  {| InterviewSessions.id := InterviewSessions.id r;
     InterviewSessions.userId := InterviewSessions.userId r;
     InterviewSessions.title :=
       default (InterviewSessions.title r) (UpdateSession.title input);
     InterviewSessions.jobTitle :=
       match UpdateSession.jobTitle input with
       | Some v => Some v | None => InterviewSessions.jobTitle r end;
     InterviewSessions.companyName :=
       match UpdateSession.companyName input with
       | Some v => Some v | None => InterviewSessions.companyName r end;
     InterviewSessions.mode :=
       match UpdateSession.mode input with
       | Some v => Some v | None => InterviewSessions.mode r end;
     InterviewSessions.scheduledAt :=
       match UpdateSession.scheduledAt input with
       | Some v => Some v | None => InterviewSessions.scheduledAt r end;
     InterviewSessions.durationMinutes :=
       match UpdateSession.durationMinutes input with
       | Some v => Some v | None => InterviewSessions.durationMinutes r end;
     InterviewSessions.createdAt := InterviewSessions.createdAt r;
     InterviewSessions.updatedAt := now |}.

(** What a successful [updateSession] may not touch in a row (given by
    [old] before and [new] after), and what it must have written. *)
Definition kept (input : UpdateSession.Input) (old new : InterviewSessions.Row) : Prop :=
  InterviewSessions.id new = InterviewSessions.id old
  ∧ InterviewSessions.userId new = InterviewSessions.userId old
  ∧ InterviewSessions.createdAt new = InterviewSessions.createdAt old
  ∧ (UpdateSession.title input = None →
     InterviewSessions.title new = InterviewSessions.title old)
  ∧ (UpdateSession.jobTitle input = None →
     InterviewSessions.jobTitle new = InterviewSessions.jobTitle old)
  ∧ (UpdateSession.companyName input = None →
     InterviewSessions.companyName new = InterviewSessions.companyName old)
  ∧ (UpdateSession.mode input = None →
     InterviewSessions.mode new = InterviewSessions.mode old)
  ∧ (UpdateSession.scheduledAt input = None →
     InterviewSessions.scheduledAt new = InterviewSessions.scheduledAt old)
  ∧ (UpdateSession.durationMinutes input = None →
     InterviewSessions.durationMinutes new = InterviewSessions.durationMinutes old).

Definition written (input : UpdateSession.Input) (new : InterviewSessions.Row) : Prop :=
  (∀ v, UpdateSession.title input = Some v → InterviewSessions.title new = v)
  ∧ (∀ v, UpdateSession.jobTitle input = Some v → InterviewSessions.jobTitle new = Some v)
  ∧ (∀ v, UpdateSession.companyName input = Some v →
          InterviewSessions.companyName new = Some v)
  ∧ (∀ v, UpdateSession.mode input = Some v → InterviewSessions.mode new = Some v)
  ∧ (∀ v, UpdateSession.scheduledAt input = Some v →
          InterviewSessions.scheduledAt new = Some v)
  ∧ (∀ v, UpdateSession.durationMinutes input = Some v →
          InterviewSessions.durationMinutes new = Some v).

(** What [saveQuestion] inserts, and what its update makes of a row,
    when the clock reads [now]. *)
Definition asked (input : SaveQuestion.Input) (now : Z) : InterviewQuestions.Row :=
  {| InterviewQuestions.id := None;
     InterviewQuestions.sessionId := SaveQuestion.sessionId input;
     InterviewQuestions.orderIndex := SaveQuestion.orderIndex input;
     InterviewQuestions.question := SaveQuestion.question input;
     InterviewQuestions.idealAnswer := SaveQuestion.idealAnswer input;
     InterviewQuestions.createdAt := now |}.

Definition reasked (input : SaveQuestion.Input) (now : Z) (r : InterviewQuestions.Row)
  : InterviewQuestions.Row :=
  {| InterviewQuestions.id := InterviewQuestions.id r;
     InterviewQuestions.sessionId := SaveQuestion.sessionId input;
     InterviewQuestions.orderIndex := SaveQuestion.orderIndex input;
     InterviewQuestions.question := SaveQuestion.question input;
     InterviewQuestions.idealAnswer :=
       match SaveQuestion.idealAnswer input with
       | Some v => Some v | None => InterviewQuestions.idealAnswer r end;
     InterviewQuestions.createdAt := now |}.

(** The world after one more reading of the clock. *)
Definition tick (w : World) : World :=
  {| db := db w; ticks := S (ticks w); draws := draws w; calls := calls w |}.

(** What [saveResponse] inserts, and what its update makes of a row,
    when the clock reads [now]. *)
Definition answered (input : SaveResponse.Input) (now : Z) : InterviewResponses.Row :=
  {| InterviewResponses.id := None;
     InterviewResponses.sessionId := SaveResponse.sessionId input;
     InterviewResponses.questionId := SaveResponse.questionId input;
     InterviewResponses.answer := SaveResponse.answer input;
     InterviewResponses.score := SaveResponse.score input;
     InterviewResponses.feedback := SaveResponse.feedback input;
     InterviewResponses.createdAt := now |}.

Definition reanswered (input : SaveResponse.Input) (now : Z) (r : InterviewResponses.Row)
  : InterviewResponses.Row :=
  {| InterviewResponses.id := InterviewResponses.id r;
     InterviewResponses.sessionId := SaveResponse.sessionId input;
     InterviewResponses.questionId := SaveResponse.questionId input;
     InterviewResponses.answer := SaveResponse.answer input;
     InterviewResponses.score :=
       match SaveResponse.score input with
       | Some v => Some v | None => InterviewResponses.score r end;
     InterviewResponses.feedback :=
       match SaveResponse.feedback input with
       | Some v => Some v | None => InterviewResponses.feedback r end;
     InterviewResponses.createdAt := now |}.

(** The caller owns a session with this id. *)
Definition owns (d : Db) (user : App.User) (session : string) : Prop :=
  ∃ s, s ∈ sessions d
       ∧ InterviewSessions.userId s = App.id user
       ∧ InterviewSessions.id s = Some session.

(** ** Sample data *)

Definition session_row (id owner : string) : InterviewSessions.Row :=
  {| InterviewSessions.id := Some id;
     InterviewSessions.userId := owner;
     InterviewSessions.title := "Backend Interview";
     InterviewSessions.jobTitle := Some "Engineer";
     InterviewSessions.companyName := None;
     InterviewSessions.mode := None;
     InterviewSessions.scheduledAt := None;
     InterviewSessions.durationMinutes := Some 45;
     InterviewSessions.createdAt := 10;
     InterviewSessions.updatedAt := 10 |}.

Definition question_row (id : option string) (session : string) : InterviewQuestions.Row :=
  {| InterviewQuestions.id := id;
     InterviewQuestions.sessionId := session;
     InterviewQuestions.orderIndex := 1;
     InterviewQuestions.question := "Tell me about yourself";
     InterviewQuestions.idealAnswer := Some "Keep it short";
     InterviewQuestions.createdAt := 20 |}.

Definition response_row (id : option string) (session question : string)
  : InterviewResponses.Row :=
  {| InterviewResponses.id := id;
     InterviewResponses.sessionId := session;
     InterviewResponses.questionId := question;
     InterviewResponses.answer := "I build backends";
     InterviewResponses.score := Some 7;
     InterviewResponses.feedback := None;
     InterviewResponses.createdAt := 30 |}.

Definition empty_db : Db := {| sessions := []; questions := []; responses := [] |}.

(** Users A and B; A owns sessions s1 and s3, B owns s2. *)
Definition sample_db : Db :=
  {| sessions := [session_row "s1" "A"; session_row "s2" "B"; session_row "s3" "A"];
     questions := [question_row (Some "q1") "s1"; question_row (Some "q2") "s2"];
     responses := [response_row (Some "r1") "s1" "q1"; response_row (Some "r2") "s2" "q2"] |}.

Definition backend_interview (id : option string) : CreateSession.Input :=
  {| CreateSession.id := id;
     CreateSession.title := "Backend Interview";
     CreateSession.jobTitle := None;
     CreateSession.companyName := None;
     CreateSession.mode := None;
     CreateSession.scheduledAt := None;
     CreateSession.durationMinutes := None |}.


(** [updateSession] called to change the title of s1 and nothing else. *)
Definition retitle_s1 : UpdateSession.Input :=
  {| UpdateSession.id := "s1"; UpdateSession.title := Some "Updated";
     UpdateSession.jobTitle := None; UpdateSession.companyName := None;
     UpdateSession.mode := None; UpdateSession.scheduledAt := None;
     UpdateSession.durationMinutes := None |}.

(** The first question of session s1, saved without an id. *)
Definition first_question : SaveQuestion.Input :=
  {| SaveQuestion.id := None;
     SaveQuestion.sessionId := "s1";
     SaveQuestion.orderIndex := 1;
     SaveQuestion.question := "Tell me about yourself";
     SaveQuestion.idealAnswer := None |}.

(** Question q1 of session s1 saved again, moved to second place, with no
    ideal answer given. *)
Definition resave_q1 : SaveQuestion.Input :=
  {| SaveQuestion.id := Some "q1";
     SaveQuestion.sessionId := "s1";
     SaveQuestion.orderIndex := 2;
     SaveQuestion.question := "Why this company?";
     SaveQuestion.idealAnswer := None |}.



(** Saving under session s3 with the id of a row of session s1. *)
Definition question_for_s3 (id : string) : SaveQuestion.Input :=
  {| SaveQuestion.id := Some id;
     SaveQuestion.sessionId := "s3";
     SaveQuestion.orderIndex := 1;
     SaveQuestion.question := "Why this company?";
     SaveQuestion.idealAnswer := None |}.


(** ** What the handlers hand to the database *)

(** The row [createSession] hands to the insert. *)
Definition created (user : App.User) (input : CreateSession.Input) (id : string)
    (createdAt updatedAt : Z) : InterviewSessions.Row :=
  {| InterviewSessions.id := Some id;
     InterviewSessions.userId := App.id user;
     InterviewSessions.title := CreateSession.title input;
     InterviewSessions.jobTitle := CreateSession.jobTitle input;
     InterviewSessions.companyName := CreateSession.companyName input;
     InterviewSessions.mode := CreateSession.mode input;
     InterviewSessions.scheduledAt := CreateSession.scheduledAt input;
     InterviewSessions.durationMinutes := CreateSession.durationMinutes input;
     InterviewSessions.createdAt := createdAt;
     InterviewSessions.updatedAt := updatedAt |}.

(** The id [createSession] gives the row, and the world once the id is
    settled and the clock has been read twice. *)
Definition session_id (env : Env) (w : World) (input : CreateSession.Input) : string :=
  default (uuidAt env (draws w)) (CreateSession.id input).

Definition stamped (w : World) (input : CreateSession.Input) : World :=
  {| db := db w;
     ticks := S (S (ticks w));
     draws := match CreateSession.id input with Some _ => draws w | None => S (draws w) end;
     calls := calls w |}.

(** [updateSession] called to change the title of a session and nothing
    else. *)
Definition retitle (id title : string) : UpdateSession.Input :=
  {| UpdateSession.id := id; UpdateSession.title := Some title;
     UpdateSession.jobTitle := None; UpdateSession.companyName := None;
     UpdateSession.mode := None; UpdateSession.scheduledAt := None;
     UpdateSession.durationMinutes := None |}.

(** A computation that leaves the database as it is and issues only
    lookups. *)
Definition reads_only {A} (m : M A) : Prop :=
  ∀ env w,
    db (m env w).2 = db w
    ∧ ∃ reads, calls (m env w).2 = calls w ++ reads
               ∧ Forall (λ c, is_write c = false) reads.

(** A scored response to question q1 of session s1, saved without an
    id. *)
Definition scored_response (score : Z) : SaveResponse.Input :=
  {| SaveResponse.id := None;
     SaveResponse.sessionId := "s1";
     SaveResponse.questionId := "q1";
     SaveResponse.answer := "I build backends";
     SaveResponse.score := Some score;
     SaveResponse.feedback := None |}.

(** Response r1 saved again with a new answer and a score, and no
    feedback. *)
Definition resave_r1 : SaveResponse.Input :=
  {| SaveResponse.id := Some "r1";
     SaveResponse.sessionId := "s1";
     SaveResponse.questionId := "q1";
     SaveResponse.answer := "I build and run backends";
     SaveResponse.score := Some 9;
     SaveResponse.feedback := None |}.

(** A computation that, when it throws, has left the database as it
    was, unless what it throws is the error raised on reading back a row
    that has been written. *)
Definition atomic {A} (m : M A) : Prop :=
  ∀ env w e w', m env w = (Throws e, w') → e ≠ unreadable → db w' = db w.

(** A session that is not this user's, and a computation that leaves all
    such sessions in place, in order and unchanged. *)
Definition foreign (user : App.User) (s : InterviewSessions.Row) : Prop :=
  InterviewSessions.userId s ≠ App.id user.

Definition spares_others {A} (user : App.User) (m : M A) : Prop :=
  ∀ env w,
    filter (foreign user) (sessions (db (m env w).2))
    = filter (foreign user) (sessions (db w)).

(** A row stored with an empty key, and a computation that keeps every
    such question and response where it is and as it is (new ones may be
    appended). *)
Definition unkeyed {R} `{Table R} (r : R) : Prop := primary_key r = None.

#[global] Instance unkeyed_dec {R} `{Table R} (r : R) : Decision (unkeyed r).
Proof. unfold unkeyed. apply _. Defined.

Definition keeps_unkeyed {A} (m : M A) : Prop :=
  ∀ env w,
    filter unkeyed (questions (db w)) `prefix_of`
      filter unkeyed (questions (db (m env w).2))
    ∧ filter unkeyed (responses (db w)) `prefix_of`
        filter unkeyed (responses (db (m env w).2)).

(** ** Data with integers at the edge of what can be read back *)

(** A session with a planned duration; and one planned to last 2^53
    minutes, the least duration that is not a safe integer. *)
Definition timed_interview (id : option string) (minutes : Z) : CreateSession.Input :=
  {| CreateSession.id := id;
     CreateSession.title := "Backend Interview";
     CreateSession.jobTitle := None;
     CreateSession.companyName := None;
     CreateSession.mode := None;
     CreateSession.scheduledAt := None;
     CreateSession.durationMinutes := Some minutes |}.

Definition endless_interview (id : option string) : CreateSession.Input :=
  timed_interview id (2 ^ 53).

(** ** References

    Every reference in the database resolves; and a computation that
    keeps it so. *)
Definition resolved (d : Db) : Prop :=
  Forall (question_resolves d) (questions d) ∧ Forall (response_resolves d) (responses d).

Definition keeps_references {A} (m : M A) : Prop :=
  ∀ env w, resolved (db w) → resolved (db (m env w).2).

(** * Properties *)

#[local] Set Warnings "-clear-no-such-hyp".

(** ** Looking rows up *)
Section rows.
Context {R : Type} `{Table R}.

Lemma elem_of_keys k l : k ∈ keys l ↔ ∃ r, r ∈ l ∧ primary_key r = Some k.
Proof. unfold keys. rewrite list_elem_of_omap. naive_solver. Qed.

Lemma unique_keys_inj l r r' k :
  unique_keys l → r ∈ l → r' ∈ l →
  primary_key r = Some k → primary_key r' = Some k → r = r'.
Proof.
  unfold unique_keys, keys. induction l as [|x l IH]; intros Hnd Hr Hr' Hk Hk'.
  - by apply elem_of_nil in Hr.
  - cbn in Hnd. apply elem_of_cons in Hr as [->|Hr]; apply elem_of_cons in Hr' as [->|Hr']; try done.
    + rewrite Hk in Hnd. cbn in Hnd. apply NoDup_cons in Hnd as [Hn _].
      exfalso. apply Hn. apply elem_of_keys. eauto.
    + rewrite Hk' in Hnd. cbn in Hnd. apply NoDup_cons in Hnd as [Hn _].
      exfalso. apply Hn. apply elem_of_keys. eauto.
    + apply IH; try done. destruct (primary_key x); cbn in Hnd; [by apply NoDup_cons in Hnd as [_ ?]|done].
Qed.

Lemma first_match_None (P : R → Prop) `{∀ r, Decision (P r)} l :
  head (filter P l) = None ↔ ∀ r, r ∈ l → ¬ P r.
Proof.
  rewrite head_None. split.
  - intros Hnil r Hr HP. assert (r ∈ filter P l) as Hin by (apply list_elem_of_filter; done).
    rewrite Hnil in Hin. by apply elem_of_nil in Hin.
  - intros Hall. destruct (filter P l) as [|x l'] eqn:E; [done|].
    assert (x ∈ filter P l) as Hin by (rewrite E; left).
    apply list_elem_of_filter in Hin as [HP Hx]. by destruct (Hall x Hx).
Qed.

Lemma first_match_Some (P : R → Prop) `{∀ r, Decision (P r)} l r :
  head (filter P l) = Some r → P r ∧ r ∈ l.
Proof.
  intros Hh. apply (list_elem_of_filter P). destruct (filter P l); [done|].
  cbn in Hh. injection Hh as ->. left.
Qed.


Lemma head_take_1 {A} (l : list A) : head (take 1 l) = head l.
Proof. by destruct l. Qed.

Lemma head_fmap {A B} (f : A → B) (l : list A) : head (f <$> l) = f <$> head l.
Proof. by destruct l. Qed.
End rows.

(** ** Running the monad *)

Lemma bind_run {A B} (m : M A) (f : A → M B) env w :
  (m ≫= f) env w =
    match m env w with
    | (Returns a, w') => f a env w'
    | (Throws e, w') => (Throws e, w')
    end.
Proof. reflexivity. Qed.

Lemma bind_throws {A B} (m : M A) (f : A → M B) env w e w' :
  m env w = (Throws e, w') → (m ≫= f) env w = (Throws e, w').
Proof. intros Hm. by rewrite bind_run, Hm. Qed.

Lemma requireUser_signed context user env w :
  locals context ≫= App.user = Some user →
  requireUser context env w = (Returns user, w).
Proof. intros Hu. unfold requireUser. by rewrite Hu. Qed.

Lemma requireUser_anonymous context env w :
  locals context ≫= App.user = None →
  requireUser context env w = (Throws unauthorized, w).
Proof. intros Hu. unfold requireUser. by rewrite Hu. Qed.

(** Unfolding the bookkeeping of a call, and nothing else. *)
Ltac world :=
  cbn [logged db ticks draws calls rows with_rows sessions questions responses
       sessions_stored questions_stored responses_stored
       table_name set_values from_values primary_key integers resolves referred
       InterviewSessions.table InterviewQuestions.table InterviewResponses.table
       mret M_ret throw session_not_found question_not_found response_not_found] in *.

(** ** Objects handed to the query builder *)

Ltac lookups :=
  repeat first
    [ rewrite lookup_insert_eq | rewrite lookup_insert_ne by done
    | rewrite lookup_singleton_eq | rewrite lookup_singleton_ne by done
    | rewrite lookup_empty ].

Lemma as_text_js o : as_text (Some (js JText o)) = o.
Proof. by destruct o. Qed.

Lemma as_num_js o : as_num (Some (js JNum o)) = o.
Proof. by destruct o. Qed.

Lemma as_date_js o : as_date (Some (js JDate o)) = o.
Proof. by destruct o. Qed.

Lemma key_taken_iff {R} `{Table R} (r : R) l k :
  primary_key r = Some k → key_taken r l ↔ k ∈ keys l.
Proof.
  intros Hk. unfold key_taken. rewrite Hk, elem_of_keys, list_elem_of_fmap.
  split.
  - intros [_ (x & Hx & Hin)]. eauto.
  - intros (x & Hin & Hx). split; [by eexists|]. eauto.
Qed.

(** ** What the query builder makes of the handlers' objects *)

Lemma createSession_row now id uid input c u :
  InterviewSessions.of_values now
    {[ "id" := JText id;
       "userId" := JText uid;
       "title" := JText (CreateSession.title input);
       "jobTitle" := js JText (CreateSession.jobTitle input);
       "companyName" := js JText (CreateSession.companyName input);
       "mode" := js JText (CreateSession.mode input);
       "scheduledAt" := js JDate (CreateSession.scheduledAt input);
       "durationMinutes" := js JNum (CreateSession.durationMinutes input);
       "createdAt" := JDate c;
       "updatedAt" := JDate u ]}
  = Some {| InterviewSessions.id := Some id;
            InterviewSessions.userId := uid;
            InterviewSessions.title := CreateSession.title input;
            InterviewSessions.jobTitle := CreateSession.jobTitle input;
            InterviewSessions.companyName := CreateSession.companyName input;
            InterviewSessions.mode := CreateSession.mode input;
            InterviewSessions.scheduledAt := CreateSession.scheduledAt input;
            InterviewSessions.durationMinutes := CreateSession.durationMinutes input;
            InterviewSessions.createdAt := c;
            InterviewSessions.updatedAt := u |}.
Proof.
  unfold InterviewSessions.of_values. lookups.
  by rewrite !as_text_js, as_num_js, as_date_js.
Qed.

Lemma set_collect input now r :
  InterviewSessions.set (<["updatedAt" := JDate now]> (collect (UpdateSession.rest input))) r
  = patched input now r.
Proof.
  destruct input as [i [t|] [j|] [c|] [m|] [s|] [d|]]; vm_compute; reflexivity.
Qed.

Lemma collect_nothing input :
  size (collect (UpdateSession.rest input)) = 0%nat →
  UpdateSession.title input = None
  ∧ UpdateSession.jobTitle input = None
  ∧ UpdateSession.companyName input = None
  ∧ UpdateSession.mode input = None
  ∧ UpdateSession.scheduledAt input = None
  ∧ UpdateSession.durationMinutes input = None.
Proof.
  destruct input as [i [t|] [j|] [c|] [m|] [s|] [d|]]; vm_compute; intros Hsz;
    first [discriminate Hsz | done].
Qed.

Lemma question_values_row now input c :
  InterviewQuestions.of_values now
    {[ "sessionId" := JText (SaveQuestion.sessionId input);
       "orderIndex" := JNum (SaveQuestion.orderIndex input);
       "question" := JText (SaveQuestion.question input);
       "idealAnswer" := js JText (SaveQuestion.idealAnswer input);
       "createdAt" := JDate c ]}
  = Some (asked input c).
Proof.
  unfold InterviewQuestions.of_values. lookups. by rewrite !as_text_js.
Qed.

Lemma question_values_set input c r :
  InterviewQuestions.set
    {[ "sessionId" := JText (SaveQuestion.sessionId input);
       "orderIndex" := JNum (SaveQuestion.orderIndex input);
       "question" := JText (SaveQuestion.question input);
       "idealAnswer" := js JText (SaveQuestion.idealAnswer input);
       "createdAt" := JDate c ]} r
  = reasked input c r.
Proof.
  unfold InterviewQuestions.set. lookups. by rewrite !as_text_js.
Qed.

Lemma response_values_row now input c :
  InterviewResponses.of_values now
    {[ "sessionId" := JText (SaveResponse.sessionId input);
       "questionId" := JText (SaveResponse.questionId input);
       "answer" := JText (SaveResponse.answer input);
       "score" := js JNum (SaveResponse.score input);
       "feedback" := js JText (SaveResponse.feedback input);
       "createdAt" := JDate c ]}
  = Some (answered input c).
Proof.
  unfold InterviewResponses.of_values. lookups. by rewrite as_text_js, as_num_js.
Qed.

Lemma response_values_set input c r :
  InterviewResponses.set
    {[ "sessionId" := JText (SaveResponse.sessionId input);
       "questionId" := JText (SaveResponse.questionId input);
       "answer" := JText (SaveResponse.answer input);
       "score" := js JNum (SaveResponse.score input);
       "feedback" := js JText (SaveResponse.feedback input);
       "createdAt" := JDate c ]} r
  = reanswered input c r.
Proof.
  unfold InterviewResponses.set. lookups. by rewrite as_text_js, as_num_js.
Qed.

Lemma no_key_not_taken {R} `{Table R} (r : R) l : primary_key r = None → ¬ key_taken r l.
Proof. intros Hk [[k Hs] _]. congruence. Qed.

(** ** Lists of rows *)

Lemma filter_all {A} (P : A → Prop) `{∀ x, Decision (P x)} (l : list A) :
  (∀ x, x ∈ l → P x) → filter P l = l.
Proof.
  induction l as [|x l IH]; intros Hall; [done|].
  rewrite filter_cons_True by (apply Hall; left).
  f_equal. apply IH. intros y Hy. apply Hall. by right.
Qed.

Lemma first_match_absent {A} (P : A → Prop) `{∀ x, Decision (P x)} (l : list A) :
  (∀ x, x ∈ l → ¬ P x) → head (filter P l) = None.
Proof. apply first_match_None. Qed.

Lemma filter_none {A} (P : A → Prop) `{∀ x, Decision (P x)} (l : list A) :
  head (filter P l) = None → filter (λ x, ¬ P x) l = l.
Proof.
  intros Hnone. apply filter_all. intros x Hx.
  by apply (proj1 (first_match_None P l) Hnone).
Qed.

Lemma owned_session_found (l : list InterviewSessions.Row) id user s :
  s ∈ l → owned_session id user s →
  ∃ s', head (filter (owned_session id user) l) = Some s'.
Proof.
  intros Hs Hown. destruct (head (filter _ l)) as [s'|] eqn:Hhead; [by exists s'|].
  rewrite first_match_None in Hhead. by destruct (Hhead s Hs).
Qed.


Lemma owned_session_owns d user session s :
  head (filter (owned_session session user) (sessions d)) = Some s →
  owns d user session.
Proof. intros [[Hid Hu] Hs]%first_match_Some. by exists s. Qed.


Lemma filter_rewritten {A} (P Q : A → Prop) `{∀ x, Decision (P x)} `{∀ x, Decision (Q x)}
    (f : A → A) (l : list A) :
  (∀ x, x ∈ l → P x → ¬ Q x ∧ ¬ Q (f x)) →
  filter Q ((λ x, if decide (P x) then f x else x) <$> l) = filter Q l.
Proof.
  induction l as [|x l IH]; intros Hout; [done|].
  assert (∀ y, y ∈ l → P y → ¬ Q y ∧ ¬ Q (f y)) as Hl by (intros y Hy; apply Hout; by right).
  rewrite fmap_cons. destruct (decide (P x)) as [HP|HP].
  - destruct (Hout x) as [Hx Hfx]; [left|done|].
    rewrite !filter_cons_False by done. by apply IH.
  - rewrite !filter_cons, IH by done. done.
Qed.

Lemma filter_removed {A} (P Q : A → Prop) `{∀ x, Decision (P x)} `{∀ x, Decision (Q x)}
    (l : list A) :
  (∀ x, x ∈ l → P x → ¬ Q x) →
  filter Q (filter (λ x, ¬ P x) l) = filter Q l.
Proof.
  induction l as [|x l IH]; intros Hout; [done|].
  assert (∀ y, y ∈ l → P y → ¬ Q y) as Hl by (intros y Hy; apply Hout; by right).
  destruct (decide (P x)) as [HP|HP].
  - rewrite (filter_cons_False (λ x, ¬ P x)) by (intros Hn; by apply Hn).
    rewrite (filter_cons_False Q) by (apply Hout; [left|done]). by apply IH.
  - rewrite (filter_cons_True (λ x, ¬ P x)) by done.
    rewrite !(filter_cons Q), IH by done. done.
Qed.

Lemma prefix_snoc_filter {A} (P : A → Prop) `{∀ x, Decision (P x)} (l : list A) x :
  filter P l `prefix_of` filter P (l ++ [x]).
Proof. rewrite filter_app. by apply prefix_app_r. Qed.


Lemma Exists_one {A} (P : A → Prop) x : Exists P [x] ↔ P x.
Proof. rewrite Exists_cons, Exists_nil. naive_solver. Qed.

Lemma Forall_one {A} (P : A → Prop) x : Forall P [x] ↔ P x.
Proof. apply Forall_singleton. Qed.

(** ** Reading rows back, and the references *)

Lemma returning_one {R} `{Stored R} (r : R) w :
  returning [r] w = if decide (readable r) then (Returns [r], w) else (Throws unreadable, w).
Proof.
  unfold returning. destruct (decide (readable r)) as [Hr|Hr].
  - rewrite decide_True; [done|]. apply Forall_cons_2; [done|apply Forall_nil_2].
  - rewrite decide_False; [done|]. intros Hall. apply Hr. by inversion Hall.
Qed.

Lemma readable_if_given (o : option Z) :
  Forall safe_integer (option_list o) ↔ ∀ n, o = Some n → safe_integer n.
Proof.
  destruct o as [n|]; cbn.
  - rewrite Forall_singleton. naive_solver.
  - split; [done|constructor].
Qed.

Lemma session_key_present (l : list InterviewSessions.Row) id user s :
  head (filter (owned_session id user) l) = Some s →
  Some id ∈ InterviewSessions.id <$> l.
Proof.
  intros [[Hid _] Hs]%first_match_Some. apply list_elem_of_fmap. by exists s.
Qed.

Lemma question_key_present (l : list InterviewQuestions.Row) id session q :
  head (filter (question_in id session) l) = Some q →
  Some id ∈ InterviewQuestions.id <$> l.
Proof.
  intros [[Hid _] Hq]%first_match_Some. apply list_elem_of_fmap. by exists q.
Qed.

Lemma Forall_fmap_const {A B} (P : B → Prop) (f : A → B) (l : list A) x :
  l ≠ [] → (∀ y, P (f y) ↔ P (f x)) → Forall P (f <$> l) ↔ P (f x).
Proof.
  intros Hne Hsame. rewrite Forall_fmap. split.
  - destruct l as [|y l]; [done|]. intros Hall%Forall_cons_1. by apply (Hsame y), Hall.
  - intros Hx. apply Forall_forall. intros y _. by apply Hsame.
Qed.

(** ** Each handler as one equation *)

Ltac decided :=
  case_decide; rewrite ?decide_True by done; rewrite ?decide_False by done.

Lemma createSession_run env w context user input :
  locals context ≫= App.user = Some user →
  createSession input context env w =
    let id := session_id env w input in
    let row := created user input id (clockAt env (ticks w)) (clockAt env (S (ticks w))) in
    let w2 := stamped w input in
    let stored :=
      logged (Insert TSessions) (with_rows (sessions (db w) ++ [row]) (db w)) w2 in
    if decide (id ∈ keys (sessions (db w)))
    then (Throws (SqlError "UNIQUE constraint failed"), logged (Insert TSessions) (db w) w2)
    else if decide (readable row) then (Returns (Some row), stored)
    else (Throws unreadable, stored).
Proof.
  intros Hu. unfold createSession. rewrite bind_run, (requireUser_signed _ _ _ _ Hu).
  rewrite bind_run.
  assert ((match CreateSession.id input with Some i => mret i | None => randomUUID end) env w
          = (Returns (session_id env w input),
             {| db := db w; ticks := ticks w;
                draws := match CreateSession.id input with
                         | Some _ => draws w | None => S (draws w) end;
                calls := calls w |})) as ->.
  { unfold session_id. destruct (CreateSession.id input); [by destruct w|done]. }
  repeat (rewrite bind_run; cbn [newDate]).
  unfold insert. world. rewrite createSession_row. cbn zeta.
  fold (created user input (session_id env w input) (clockAt env (ticks w))
          (clockAt env (S (ticks w)))).
  destruct (decide (session_id env w input ∈ keys (sessions (db w)))) as [Hin|Hout].
  - rewrite decide_True by by apply (key_taken_iff _ _ (session_id env w input)). done.
  - rewrite decide_False by by rewrite (key_taken_iff _ _ (session_id env w input)).
    rewrite decide_True by done. rewrite returning_one. by case_decide.
Qed.

Lemma updateSession_run env w context user input :
  locals context ≫= App.user = Some user →
  updateSession input context env w =
    let owned := owned_session (UpdateSession.id input) user in
    let w1 := logged (Select TSessions) (db w) w in
    let now := clockAt env (ticks w) in
    match head (filter owned (sessions (db w))) with
    | None => (Throws (ActionError NOT_FOUND "Session not found."), w1)
    | Some existing =>
        if decide (size (collect (UpdateSession.rest input)) = 0%nat)
        then (Returns (Some existing), w1)
        else
          let written :=
            logged (Update TSessions)
              (with_rows
                 ((λ r, if decide (owned r) then patched input now r else r)
                    <$> sessions (db w)) (db w))
              (tick w1) in
          if decide (Forall readable (patched input now <$> filter owned (sessions (db w))))
          then (Returns (Some (patched input now existing)), written)
          else (Throws unreadable, written)
    end.
Proof.
  intros Hu. unfold updateSession. rewrite bind_run, (requireUser_signed _ _ _ _ Hu).
  rewrite bind_run. cbn [select from_option]. rewrite head_take_1. world. cbn zeta.
  destruct (head (filter _ _)) as [existing|] eqn:Hhead; [|done].
  case_decide; [done|].
  repeat (rewrite bind_run; cbn [newDate]). unfold update. world.
  rewrite decide_True.
  2: { apply Forall_forall. intros r _. split; [done|]. intros _. by rewrite set_collect. }
  assert (∀ l : list InterviewSessions.Row,
            InterviewSessions.set
              (<["updatedAt":=JDate (clockAt env (ticks w))]> (collect (UpdateSession.rest input)))
              <$> l = patched input (clockAt env (ticks w)) <$> l) as ->.
  { intros l. apply list_fmap_ext. intros i r _. apply set_collect. }
  assert (∀ l : list InterviewSessions.Row,
            (λ r, if decide (owned_session (UpdateSession.id input) user r)
                  then InterviewSessions.set
                         (<["updatedAt":=JDate (clockAt env (ticks w))]>
                            (collect (UpdateSession.rest input))) r
                  else r) <$> l
            = (λ r, if decide (owned_session (UpdateSession.id input) user r)
                    then patched input (clockAt env (ticks w)) r else r) <$> l) as ->.
  { intros l. apply list_fmap_ext. intros i r _. case_decide; [|done]. apply set_collect. }
  unfold returning. decided; [|done].
  world. by rewrite head_fmap, Hhead.
Qed.

Lemma listSessions_run env w context user :
  locals context ≫= App.user = Some user →
  listSessions context env w
    = (Returns (filter (λ s, InterviewSessions.userId s = App.id user) (sessions (db w))),
       logged (Select TSessions) (db w) w).
Proof.
  intros Hu. unfold listSessions. by rewrite bind_run, (requireUser_signed _ _ _ _ Hu).
Qed.

Lemma deleteSession_run env w context user input :
  locals context ≫= App.user = Some user →
  deleteSession input context env w =
    let owned := owned_session (DeleteSession.id input) user in
    let targets := filter owned (sessions (db w)) in
    let removed :=
      logged (Delete TSessions)
        (with_rows (filter (λ s, ¬ owned s) (sessions (db w))) (db w)) w in
    if decide (Exists (session_referred (db w)) targets)
    then (Throws unresolved, logged (Delete TSessions) (db w) w)
    else if decide (Forall readable targets)
    then match head targets with
         | None => (Throws (ActionError NOT_FOUND "Session not found."),
                    logged (Delete TSessions) (db w) w)
         | Some deleted => (Returns deleted, removed)
         end
    else (Throws unreadable, removed).
Proof.
  intros Hu. unfold deleteSession. rewrite bind_run, (requireUser_signed _ _ _ _ Hu).
  rewrite bind_run. unfold delete. world. cbn zeta.
  decided; [done|]. unfold returning. decided; [|done].
  destruct (head (filter _ _)) as [deleted|] eqn:Hhead; [done|].
  world. rewrite (filter_none _ _ Hhead). by destruct (db w).
Qed.

Lemma deleteQuestion_run env w context user input :
  locals context ≫= App.user = Some user →
  deleteQuestion input context env w =
    let target := question_in (DeleteQuestion.id input) (DeleteQuestion.sessionId input) in
    let targets := filter target (questions (db w)) in
    let w1 := logged (Select TSessions) (db w) w in
    let removed :=
      logged (Delete TQuestions)
        (with_rows (filter (λ q, ¬ target q) (questions (db w))) (db w)) w1 in
    match head (filter (owned_session (DeleteQuestion.sessionId input) user)
                  (sessions (db w))) with
    | None => (Throws (ActionError NOT_FOUND "Session not found."), w1)
    | Some _ =>
        if decide (Exists (question_referred (db w)) targets)
        then (Throws unresolved, logged (Delete TQuestions) (db w) w1)
        else if decide (Forall readable targets)
        then match head targets with
             | None => (Throws (ActionError NOT_FOUND "Question not found."),
                        logged (Delete TQuestions) (db w) w1)
             | Some deleted => (Returns deleted, removed)
             end
        else (Throws unreadable, removed)
    end.
Proof.
  intros Hu. unfold deleteQuestion. rewrite bind_run, (requireUser_signed _ _ _ _ Hu).
  rewrite bind_run. cbn [select from_option]. rewrite head_take_1. world. cbn zeta.
  destruct (head (filter _ (sessions (db w)))) as [s|]; [|done].
  rewrite bind_run. unfold delete. world.
  decided; [done|]. unfold returning. decided; [|done].
  destruct (head (filter _ (questions (db w)))) as [deleted|] eqn:Hhead; [done|].
  world. rewrite (filter_none _ _ Hhead). by destruct (db w).
Qed.
Lemma saveQuestion_unowned env w context user input :
  locals context ≫= App.user = Some user →
  head (filter (owned_session (SaveQuestion.sessionId input) user) (sessions (db w))) = None →
  saveQuestion input context env w
    = (Throws (ActionError NOT_FOUND "Session not found."),
       logged (Select TSessions) (db w) w).
Proof.
  intros Hu Hs.
  unfold saveQuestion. rewrite bind_run, (requireUser_signed _ _ _ _ Hu).
  rewrite bind_run. cbn [select from_option]. rewrite head_take_1. world. by rewrite Hs.
Qed.

Lemma saveResponse_unowned env w context user input :
  locals context ≫= App.user = Some user →
  head (filter (owned_session (SaveResponse.sessionId input) user) (sessions (db w))) = None →
  saveResponse input context env w
    = (Throws (ActionError NOT_FOUND "Session not found."),
       logged (Select TSessions) (db w) w).
Proof.
  intros Hu Hs.
  unfold saveResponse. rewrite bind_run, (requireUser_signed _ _ _ _ Hu).
  rewrite bind_run. cbn [select from_option]. rewrite head_take_1. world. by rewrite Hs.
Qed.

Lemma saveResponse_unasked env w context user input s :
  locals context ≫= App.user = Some user →
  head (filter (owned_session (SaveResponse.sessionId input) user) (sessions (db w))) = Some s →
  head (filter (question_in (SaveResponse.questionId input) (SaveResponse.sessionId input))
          (questions (db w))) = None →
  saveResponse input context env w
    = (Throws (ActionError NOT_FOUND "Question not found."),
       logged (Select TQuestions) (db w) (logged (Select TSessions) (db w) w)).
Proof.
  intros Hu Hs Hq.
  unfold saveResponse. rewrite bind_run, (requireUser_signed _ _ _ _ Hu).
  rewrite bind_run. cbn [select from_option]. rewrite head_take_1. world. rewrite Hs.
  rewrite bind_run. cbn [select from_option]. rewrite head_take_1. world. by rewrite Hq.
Qed.

Lemma listResponses_run env w context user input :
  locals context ≫= App.user = Some user →
  listResponses input context env w =
    let allowed : gset (option string) :=
      list_to_set (InterviewSessions.id <$>
        filter (λ s, InterviewSessions.userId s = App.id user) (sessions (db w))) in
    let requestedSession := truthy (input ≫= ListResponses.sessionId) in
    let requestedQuestion := truthy (input ≫= ListResponses.questionId) in
    let w1 := logged (Select TSessions) (db w) w in
    let listed :=
      (Returns
         (filter (λ r : InterviewResponses.Row,
            bool_decide (Some (InterviewResponses.sessionId r) ∈ allowed)
            && match requestedSession with
               | Some s => bool_decide (InterviewResponses.sessionId r = s)
               | None => true
               end
            && match requestedQuestion with
               | Some q => bool_decide (InterviewResponses.questionId r = q)
               | None => true
               end) (responses (db w))),
       logged (Select TResponses) (db w) w1) in
    match requestedSession with
    | Some s =>
        if decide (Some s ∉ allowed)
        then (Throws (ActionError NOT_FOUND "Session not found."), w1)
        else listed
    | None => listed
    end.
Proof.
  intros Hu. unfold listResponses. rewrite bind_run, (requireUser_signed _ _ _ _ Hu).
  rewrite bind_run. cbn [select from_option]. world. cbn zeta. rewrite bind_run.
  destruct (truthy (input ≫= ListResponses.sessionId)) as [s|].
  - case_decide; [done|]. world. rewrite bind_run. cbn [select from_option]. world.
    by rewrite (filter_all (λ _, True)).
  - world. rewrite bind_run. cbn [select from_option]. world.
    by rewrite (filter_all (λ _, True)).
Qed.

Lemma saveQuestion_run env w context user input s :
  locals context ≫= App.user = Some user →
  head (filter (owned_session (SaveQuestion.sessionId input) user) (sessions (db w))) = Some s →
  saveQuestion input context env w =
    let now := clockAt env (ticks w) in
    let w1 := tick (logged (Select TSessions) (db w) w) in
    match truthy (SaveQuestion.id input) with
    | Some id =>
        match head (filter (λ q, InterviewQuestions.id q = Some id) (questions (db w))) with
        | Some existing =>
            if decide (InterviewQuestions.sessionId existing ≠ SaveQuestion.sessionId input)
            then (Throws (ActionError NOT_FOUND "Question not found."),
                  logged (Select TQuestions) (db w) w1)
            else
              let written :=
                logged (Update TQuestions)
                  (with_rows
                     ((λ q, if decide (InterviewQuestions.id q = Some id)
                            then reasked input now q else q) <$> questions (db w))
                     (db w))
                  (logged (Select TQuestions) (db w) w1) in
              if decide (safe_integer (SaveQuestion.orderIndex input))
              then (Returns (Some (reasked input now existing)), written)
              else (Throws unreadable, written)
        | None => (Throws (ActionError NOT_FOUND "Question not found."),
                   logged (Select TQuestions) (db w) w1)
        end
    | None =>
        let stored :=
          logged (Insert TQuestions)
            (with_rows (questions (db w) ++ [asked input now]) (db w)) w1 in
        if decide (safe_integer (SaveQuestion.orderIndex input))
        then (Returns (Some (asked input now)), stored)
        else (Throws unreadable, stored)
    end.
Proof.
  intros Hu Hs. pose proof (session_key_present _ _ _ _ Hs) as Hkey.
  unfold saveQuestion. rewrite bind_run, (requireUser_signed _ _ _ _ Hu).
  rewrite bind_run. cbn [select from_option]. rewrite head_take_1. world. rewrite Hs.
  rewrite bind_run. cbn [newDate]. world.
  destruct (truthy (SaveQuestion.id input)) as [id|].
  - rewrite bind_run. cbn [select from_option]. rewrite head_take_1. world.
    destruct (head (filter _ (questions (db w)))) as [existing|] eqn:Hq; [|done].
    case_decide; [done|].
    rewrite bind_run. unfold update. world.
    assert (∀ l : list InterviewQuestions.Row,
              InterviewQuestions.set
                {[ "sessionId" := JText (SaveQuestion.sessionId input);
                   "orderIndex" := JNum (SaveQuestion.orderIndex input);
                   "question" := JText (SaveQuestion.question input);
                   "idealAnswer" := js JText (SaveQuestion.idealAnswer input);
                   "createdAt" := JDate (clockAt env (ticks w)) ]} <$> l
              = reasked input (clockAt env (ticks w)) <$> l) as Hset.
    { intros l. apply list_fmap_ext. intros i q _. apply question_values_set. }
    rewrite decide_True.
    2: { apply Forall_forall. intros q _. rewrite question_values_set. by split. }
    rewrite Hset. unfold returning.
    rewrite (decide_ext _ (safe_integer (SaveQuestion.orderIndex input))).
    2: { rewrite (Forall_fmap_const _ _ _ existing).
         - unfold readable. cbn. apply Forall_singleton.
         - intros Hnil. by rewrite Hnil in Hq.
         - done. }
    case_decide; [|unfold tick, logged; cbn; do 3 f_equal].
    + rewrite head_fmap, Hq. unfold tick, logged. cbn. do 3 f_equal.
      apply list_fmap_ext. intros i q _. case_decide; [|done]. apply question_values_set.
    + apply list_fmap_ext. intros i q _. case_decide; [|done]. apply question_values_set.
  - rewrite bind_run. unfold insert. world. rewrite question_values_row.
    rewrite decide_False by by apply no_key_not_taken.
    rewrite decide_True by done. rewrite returning_one.
    rewrite (decide_ext _ (safe_integer (SaveQuestion.orderIndex input)))
      by (unfold readable; cbn; apply Forall_singleton).
    by case_decide.
Qed.

Lemma saveResponse_run env w context user input s q :
  locals context ≫= App.user = Some user →
  head (filter (owned_session (SaveResponse.sessionId input) user) (sessions (db w))) = Some s →
  head (filter (question_in (SaveResponse.questionId input) (SaveResponse.sessionId input))
          (questions (db w))) = Some q →
  saveResponse input context env w =
    let now := clockAt env (ticks w) in
    let w2 :=
      tick (logged (Select TQuestions) (db w) (logged (Select TSessions) (db w) w)) in
    match truthy (SaveResponse.id input) with
    | Some id =>
        let targets := filter (λ r, InterviewResponses.id r = Some id) (responses (db w)) in
        match head targets with
        | Some existing =>
            if decide (InterviewResponses.sessionId existing ≠ SaveResponse.sessionId input)
            then (Throws (ActionError NOT_FOUND "Response not found."),
                  logged (Select TResponses) (db w) w2)
            else
              let written :=
                logged (Update TResponses)
                  (with_rows
                     ((λ r, if decide (InterviewResponses.id r = Some id)
                            then reanswered input now r else r) <$> responses (db w))
                     (db w))
                  (logged (Select TResponses) (db w) w2) in
              if decide (Forall readable (reanswered input now <$> targets))
              then (Returns (Some (reanswered input now existing)), written)
              else (Throws unreadable, written)
        | None => (Throws (ActionError NOT_FOUND "Response not found."),
                   logged (Select TResponses) (db w) w2)
        end
    | None =>
        let stored :=
          logged (Insert TResponses)
            (with_rows (responses (db w) ++ [answered input now]) (db w)) w2 in
        if decide (readable (answered input now))
        then (Returns (Some (answered input now)), stored)
        else (Throws unreadable, stored)
    end.
Proof.
  intros Hu Hs Hq. pose proof (session_key_present _ _ _ _ Hs) as Hkey.
  pose proof (question_key_present _ _ _ _ Hq) as Hqkey.
  unfold saveResponse. rewrite bind_run, (requireUser_signed _ _ _ _ Hu).
  rewrite bind_run. cbn [select from_option]. rewrite head_take_1. world. rewrite Hs.
  rewrite bind_run. cbn [select from_option]. rewrite head_take_1. world. rewrite Hq.
  rewrite bind_run. cbn [newDate]. world. cbn zeta.
  destruct (truthy (SaveResponse.id input)) as [id|].
  - rewrite bind_run. cbn [select from_option]. rewrite head_take_1. world.
    destruct (head (filter _ (responses (db w)))) as [existing|] eqn:Hr; [|done].
    case_decide; [done|].
    rewrite bind_run. unfold update. world.
    assert (∀ l : list InterviewResponses.Row,
              InterviewResponses.set
                {[ "sessionId" := JText (SaveResponse.sessionId input);
                   "questionId" := JText (SaveResponse.questionId input);
                   "answer" := JText (SaveResponse.answer input);
                   "score" := js JNum (SaveResponse.score input);
                   "feedback" := js JText (SaveResponse.feedback input);
                   "createdAt" := JDate (clockAt env (ticks w)) ]} <$> l
              = reanswered input (clockAt env (ticks w)) <$> l) as Hset.
    { intros l. apply list_fmap_ext. intros i r _. apply response_values_set. }
    rewrite decide_True.
    2: { apply Forall_forall. intros r _. rewrite response_values_set. by split. }
    rewrite Hset. unfold returning.
    case_decide; [|unfold tick, logged; cbn; do 3 f_equal].
    + rewrite head_fmap, Hr. unfold tick, logged. cbn. do 3 f_equal.
      apply list_fmap_ext. intros i r _. case_decide; [|done]. apply response_values_set.
    + apply list_fmap_ext. intros i r _. case_decide; [|done]. apply response_values_set.
  - rewrite bind_run. unfold insert. world. rewrite response_values_row.
    rewrite decide_False by by apply no_key_not_taken.
    rewrite decide_True by done. rewrite returning_one. by case_decide.
Qed.
(** ** Sessions *)

(** C7, as amended.  For a signed-in caller, when the id the row is to
    carry (the input's id if given, the next random identifier otherwise)
    is not yet the key of a session, and the duration, if one is given,
    is a safe integer, [createSession] issues one insert,
    which appends exactly one row, and returns that row: it carries that
    id, the caller's id as [userId] and the input's fields; [createdAt] is
    the first clock reading of the call and [updatedAt] the second, so the
    two are equal whenever the clock did not move between the readings. *)
Theorem createSession_inserts env w context user input :
  locals context ≫= App.user = Some user →
  let id := default (uuidAt env (draws w)) (CreateSession.id input) in
  let row :=
    {| InterviewSessions.id := Some id;
       InterviewSessions.userId := App.id user;
       InterviewSessions.title := CreateSession.title input;
       InterviewSessions.jobTitle := CreateSession.jobTitle input;
       InterviewSessions.companyName := CreateSession.companyName input;
       InterviewSessions.mode := CreateSession.mode input;
       InterviewSessions.scheduledAt := CreateSession.scheduledAt input;
       InterviewSessions.durationMinutes := CreateSession.durationMinutes input;
       InterviewSessions.createdAt := clockAt env (ticks w);
       InterviewSessions.updatedAt := clockAt env (S (ticks w)) |} in
  id ∉ keys (sessions (db w)) →
  (∀ n, CreateSession.durationMinutes input = Some n → safe_integer n) →
  ∃ w',
    createSession input context env w = (Returns (Some row), w')
    ∧ sessions (db w') = sessions (db w) ++ [row]
    ∧ questions (db w') = questions (db w)
    ∧ responses (db w') = responses (db w)
    ∧ calls w' = calls w ++ [Insert TSessions]
    ∧ (clockAt env (ticks w) = clockAt env (S (ticks w)) →
       InterviewSessions.createdAt row = InterviewSessions.updatedAt row).
Proof.
  intros Hu id row Hfresh Hsafe.
  rewrite (createSession_run _ _ _ _ _ Hu). cbn zeta.
  rewrite decide_False by done.
  rewrite decide_True by (unfold readable; cbn; by apply readable_if_given).
  eexists. split; [reflexivity|]. world. done.
Qed.

Lemma createSession_inserts_witness :
  ∃ w',
    createSession (timed_interview None MAX_SAFE_INTEGER) (signed_in "A") (frozen 1000)
      (start sample_db)
      = (Returns (Some {| InterviewSessions.id := Some "uuid-0";
                          InterviewSessions.userId := "A";
                          InterviewSessions.title := "Backend Interview";
                          InterviewSessions.jobTitle := None;
                          InterviewSessions.companyName := None;
                          InterviewSessions.mode := None;
                          InterviewSessions.scheduledAt := None;
                          InterviewSessions.durationMinutes := Some 9007199254740991;
                          InterviewSessions.createdAt := 1000;
                          InterviewSessions.updatedAt := 1000 |}), w')
    ∧ length (sessions (db w')) = 4%nat.
Proof.
  destruct (createSession_inserts (frozen 1000) (start sample_db) (signed_in "A")
              {| App.id := "A" |} (timed_interview None MAX_SAFE_INTEGER))
    as (w' & Hrun & Hrows & _).
  - reflexivity.
  - compute_done.
  - intros n [= <-]. compute_done.
  - exists w'. split; [exact Hrun|]. rewrite Hrows. reflexivity.
Defined.

(** C7, as stated, fails three times over: the two time stamps come from
    two readings of the clock, which may differ; an id that is already
    the key of a session makes the insert fail, so that no row is added;
    and a duration of 2^53 minutes, which the input schema lets through,
    is stored but cannot be read back, so that the call throws with the
    row in the table. *)
Lemma createSession_counterexample :
  (∃ row w',
     createSession (backend_interview None) (signed_in "A") (ticking 1000) (start empty_db)
       = (Returns (Some row), w')
     ∧ InterviewSessions.createdAt row = 1000
     ∧ InterviewSessions.updatedAt row = 1001
     ∧ InterviewSessions.createdAt row ≠ InterviewSessions.updatedAt row)
  ∧ (∃ w',
     createSession (backend_interview (Some "s1")) (signed_in "A") (frozen 1000)
       (start sample_db)
       = (Throws (SqlError "UNIQUE constraint failed"), w')
     ∧ db w' = sample_db)
  ∧ (∃ w',
     createSession (endless_interview None) (signed_in "A") (frozen 1000) (start empty_db)
       = (Throws unreadable, w')
     ∧ length (sessions (db w')) = 1%nat).
Proof.
  split_and!.
  - do 2 eexists. split; [vm_compute; reflexivity|]. cbn. done.
  - eexists. split; [vm_compute; reflexivity|]. reflexivity.
  - eexists. split; [vm_compute; reflexivity|]. reflexivity.
Qed.


Lemma sample_sessions_unique : unique_keys (sessions sample_db).
Proof.
  compute_done.
Qed.


Lemma kept_refl input r : kept input r r.
Proof. by repeat split. Qed.

Lemma kept_patched input now r : kept input r (patched input now r).
Proof.
  unfold kept, patched. cbn. split_and!; try done; by intros ->.
Qed.

Lemma written_patched input now r : written input (patched input now r).
Proof.
  unfold written, patched. cbn. split_and!; by intros v ->.
Qed.

Lemma written_nothing input r :
  size (collect (UpdateSession.rest input)) = 0%nat → written input r.
Proof.
  intros (Ht & Hj & Hc & Hm & Hs & Hd)%collect_nothing.
  unfold written. rewrite Ht, Hj, Hc, Hm, Hs, Hd. by split_and!.
Qed.

(** C8.  Whenever [updateSession] succeeds, every session row keeps its
    [id], [userId] and [createdAt] and every field the input does not
    give; rows with another id, and the other two tables, are left
    entirely alone.  The row returned is the looked-up row with the given
    fields written and nothing else changed but [updatedAt]. *)
Theorem updateSession_frame env w context input out w' :
  updateSession input context env w = (Returns out, w') →
  Forall2 (λ old new,
      kept input old new
      ∧ (InterviewSessions.id old ≠ Some (UpdateSession.id input) → new = old))
    (sessions (db w)) (sessions (db w'))
  ∧ questions (db w') = questions (db w)
  ∧ responses (db w') = responses (db w)
  ∧ ∃ existing session,
      out = Some session
      ∧ existing ∈ sessions (db w)
      ∧ InterviewSessions.id existing = Some (UpdateSession.id input)
      ∧ kept input existing session
      ∧ written input session.
Proof.
  destruct (locals context ≫= App.user) as [user|] eqn:Hu.
  2: { unfold updateSession. rewrite bind_run, (requireUser_anonymous _ _ _ Hu). discriminate. }
  rewrite (updateSession_run _ _ _ _ _ Hu). cbn zeta.
  destruct (head (filter _ _)) as [existing|] eqn:Hhead; [|discriminate].
  pose proof Hhead as [[Hid _] Hin]%first_match_Some.
  case_decide as Hsize.
  - intros [= <- <-]. world. split_and!; try done.
    + apply Forall_Forall2_diag, Forall_forall. intros r _. split; [apply kept_refl|done].
    + exists existing, existing.
      split_and!; first [done | apply kept_refl | by apply written_nothing].
  - case_decide; [|discriminate]. intros [= <- <-]. world. split_and!; try done.
    + apply Forall2_fmap_r, Forall_Forall2_diag, Forall_forall. intros r _.
      unfold compose. case_decide as HP; [|split; [apply kept_refl|done]].
      split; [apply kept_patched|]. by destruct HP.
    + eexists existing, _. split; [reflexivity|].
      split_and!; [done|done|apply kept_patched|apply written_patched].
Qed.

Lemma updateSession_frame_witness :
  ∃ out w',
    updateSession retitle_s1 (signed_in "A") (ticking 1000) (start sample_db)
      = (Returns out, w')
    ∧ questions (db w') = questions sample_db
    ∧ ∃ existing session,
        out = Some session
        ∧ existing ∈ sessions sample_db
        ∧ InterviewSessions.jobTitle session = InterviewSessions.jobTitle existing
        ∧ InterviewSessions.title session = "Updated".
Proof.
  destruct (updateSession retitle_s1 (signed_in "A") (ticking 1000) (start sample_db))
    as [[out|e] w'] eqn:Hrun; [|vm_compute in Hrun; discriminate Hrun].
  exists out, w'. split; [reflexivity|].
  destruct (updateSession_frame _ _ _ _ _ _ Hrun)
    as (_ & Hq & _ & existing & session & Hout & Hin & _ & Hkept & Hwritten).
  split; [exact Hq|]. exists existing, session. split_and!; [exact Hout|exact Hin| |].
  - by apply Hkept.
  - by apply Hwritten.
Defined.

(** ** Deleting *)


Lemma sample_questions_unique : unique_keys (questions sample_db).
Proof. compute_done. Qed.

Lemma sample_responses_unique : unique_keys (responses sample_db).
Proof. compute_done. Qed.



(** ** Listing responses *)




(** ** Saving questions *)

(** C5, on the code.  A signed-in caller saves a question into a session
    of theirs with no id (or an empty one): a row is inserted that is
    stamped with the clock reading, but its [id] is empty.  No identifier
    is generated on this path.  The row is what the call returns, unless
    its order index cannot be read back: then the call throws with the
    row in the table. *)
Theorem saveQuestion_insert_has_no_id env w context user input s :
  locals context ≫= App.user = Some user →
  s ∈ sessions (db w) →
  owned_session (SaveQuestion.sessionId input) user s →
  truthy (SaveQuestion.id input) = None →
  ∃ question w',
    saveQuestion input context env w
      = (if decide (safe_integer (SaveQuestion.orderIndex input))
         then Returns (Some question) else Throws unreadable, w')
    ∧ questions (db w') = questions (db w) ++ [question]
    ∧ InterviewQuestions.createdAt question = clockAt env (ticks w)
    ∧ InterviewQuestions.id question = None.
Proof.
  intros Hu Hs Hown Hid.
  destruct (owned_session_found _ _ _ _ Hs Hown) as [s' Hs'].
  rewrite (saveQuestion_run _ _ _ _ _ _ Hu Hs'). cbn zeta. rewrite Hid.
  eexists _, _. split; [by case_decide|]. done.
Qed.

Lemma saveQuestion_insert_has_no_id_witness :
  ∃ question w',
    saveQuestion first_question (signed_in "A") (ticking 1000) (start sample_db)
      = (Returns (Some question), w')
    ∧ questions (db w') = questions sample_db ++ [question]
    ∧ InterviewQuestions.createdAt question = 1000
    ∧ InterviewQuestions.id question = None.
Proof.
  apply (saveQuestion_insert_has_no_id (ticking 1000) (start sample_db) (signed_in "A")
           {| App.id := "A" |} first_question (session_row "s1" "A")).
  - reflexivity.
  - compute_done.
  - compute_done.
  - reflexivity.
Defined.

(** C9, as amended.  Whenever [saveQuestion] succeeds on a given,
    non-empty id, it has found a question with that id in the input's
    session, and the row it returns has that id and session, the input's
    [question] and [orderIndex], [createdAt] set to the clock reading, and
    the input's [idealAnswer] if one is given; with none given the stored
    [idealAnswer] stays.  Rows with another id and the other tables are
    left alone. *)
Theorem saveQuestion_update env w context input id out w' :
  truthy (SaveQuestion.id input) = Some id →
  saveQuestion input context env w = (Returns out, w') →
  ∃ existing row,
    out = Some row
    ∧ existing ∈ questions (db w)
    ∧ InterviewQuestions.id existing = Some id
    ∧ InterviewQuestions.sessionId existing = SaveQuestion.sessionId input
    ∧ InterviewQuestions.id row = Some id
    ∧ InterviewQuestions.sessionId row = SaveQuestion.sessionId input
    ∧ InterviewQuestions.question row = SaveQuestion.question input
    ∧ InterviewQuestions.orderIndex row = SaveQuestion.orderIndex input
    ∧ InterviewQuestions.createdAt row = clockAt env (ticks w)
    ∧ (∀ v, SaveQuestion.idealAnswer input = Some v →
            InterviewQuestions.idealAnswer row = Some v)
    ∧ (SaveQuestion.idealAnswer input = None →
       InterviewQuestions.idealAnswer row = InterviewQuestions.idealAnswer existing)
    ∧ questions (db w')
      = (λ q, if decide (InterviewQuestions.id q = Some id)
              then reasked input (clockAt env (ticks w)) q else q) <$> questions (db w)
    ∧ sessions (db w') = sessions (db w)
    ∧ responses (db w') = responses (db w).
Proof.
  intros Hid.
  destruct (locals context ≫= App.user) as [user|] eqn:Hu.
  2: { unfold saveQuestion. rewrite bind_run, (requireUser_anonymous _ _ _ Hu). discriminate. }
  destruct (head (filter (owned_session (SaveQuestion.sessionId input) user)
                    (sessions (db w)))) as [s|] eqn:Hs.
  2: { rewrite (saveQuestion_unowned _ _ _ _ _ Hu Hs). discriminate. }
  rewrite (saveQuestion_run _ _ _ _ _ _ Hu Hs). cbn zeta. rewrite Hid.
  destruct (head (filter _ (questions (db w)))) as [existing|] eqn:Hq; [|discriminate].
  case_decide as Hsame; [discriminate|]. case_decide; [|discriminate].
  apply first_match_Some in Hq as [Hk Hin].
  intros [= <- <-]. exists existing, (reasked input (clockAt env (ticks w)) existing).
  split_and!; try done.
  - intros v Hv. cbn. by rewrite Hv.
  - intros Hv. cbn. by rewrite Hv.
Qed.

Lemma saveQuestion_update_witness :
  ∃ out w',
    saveQuestion resave_q1 (signed_in "A") (ticking 1000) (start sample_db)
      = (Returns out, w')
    ∧ ∃ row,
        out = Some row
        ∧ InterviewQuestions.id row = Some "q1"
        ∧ InterviewQuestions.orderIndex row = 2
        ∧ InterviewQuestions.createdAt row = 1000
        ∧ sessions (db w') = sessions sample_db.
Proof.
  destruct (saveQuestion resave_q1 (signed_in "A") (ticking 1000) (start sample_db))
    as [[out|e] w'] eqn:Hrun; [|vm_compute in Hrun; discriminate Hrun].
  exists out, w'. split; [reflexivity|].
  destruct (saveQuestion_update (ticking 1000) (start sample_db) (signed_in "A") resave_q1
              "q1" out w' eq_refl Hrun)
    as (existing & row & Hout & _ & _ & _ & Hid & _ & _ & Hidx & Hat & _ & _ & _ & Hs & _).
  exists row. by split_and!.
Defined.

(** C9, as stated, fails: with no ideal answer in the input the stored one
    is not replaced. *)
Lemma saveQuestion_update_counterexample :
  ∃ row w',
    saveQuestion resave_q1 (signed_in "A") (ticking 1000) (start sample_db)
      = (Returns (Some row), w')
    ∧ SaveQuestion.idealAnswer resave_q1 = None
    ∧ InterviewQuestions.idealAnswer row = Some "Keep it short"
    ∧ InterviewQuestions.idealAnswer row ≠ SaveQuestion.idealAnswer resave_q1.
Proof.
  do 2 eexists. split; [vm_compute; reflexivity|]. cbn. done.
Qed.

(** ** Saving responses, and the guard on ids *)






(** ** The invariant on keys *)

#[global] Instance sessions_laws : StoredLaws InterviewSessions.Row.
Proof. split; unfold consistent; cbn; naive_solver. Qed.

#[global] Instance questions_laws : StoredLaws InterviewQuestions.Row.
Proof. split; unfold consistent; cbn; naive_solver. Qed.

#[global] Instance responses_laws : StoredLaws InterviewResponses.Row.
Proof. split; unfold consistent; cbn; naive_solver. Qed.

Section unique.
Context {R : Type} `{Table R}.

Lemma unique_keys_snoc (l : list R) r :
  unique_keys l → ¬ key_taken r l → unique_keys (l ++ [r]).
Proof.
  unfold unique_keys, keys. intros Hl Hfree. rewrite omap_app. cbn.
  destruct (primary_key r) as [k|] eqn:Hk; cbn; [|by rewrite app_nil_r].
  apply NoDup_app. split_and!; [done| |apply NoDup_singleton].
  intros x Hx Hxk. apply list_elem_of_singleton in Hxk. subst x.
  apply Hfree. by apply (key_taken_iff r l k).
Qed.

Lemma unique_keys_filter (P : R → Prop) `{∀ r, Decision (P r)} (l : list R) :
  unique_keys l → unique_keys (filter P l).
Proof.
  unfold unique_keys, keys. induction l as [|x l IH]; [done|].
  intros Hnd. cbn in Hnd. assert (NoDup (omap primary_key l)) as Hl.
  { destruct (primary_key x); [by apply NoDup_cons in Hnd as [_ ?]|done]. }
  rewrite filter_cons. destruct (decide (P x)); [|by apply IH]. cbn.
  destruct (primary_key x) as [k|] eqn:Hk; [|by apply IH].
  apply NoDup_cons in Hnd as [Hnew _]. apply NoDup_cons. split; [|by apply IH].
  intros (y & [_ Hy]%(list_elem_of_filter P) & Hky)%elem_of_keys.
  apply Hnew. apply elem_of_keys. eauto.
Qed.

Lemma keys_fmap (f : R → R) (l : list R) :
  (∀ r, primary_key (f r) = primary_key r) → keys (f <$> l) = keys l.
Proof.
  intros Hf. unfold keys. induction l as [|x l IH]; [done|].
  cbn. by rewrite Hf, IH.
Qed.
End unique.

Lemma preserves_ret {A} (a : A) : preserves (mret a).
Proof. by intros env w. Qed.

Lemma preserves_throw {A} e : preserves (throw (A:=A) e).
Proof. by intros env w. Qed.

Lemma preserves_bind {A B} (m : M A) (f : A → M B) :
  preserves m → (∀ a, preserves (f a)) → preserves (m ≫= f).
Proof.
  intros Hm Hf env w Hw. rewrite bind_run. specialize (Hm env w Hw).
  destruct (m env w) as [[a|e] w1]; [by apply Hf|done].
Qed.

Lemma preserves_newDate : preserves newDate.
Proof. by intros env w. Qed.

Lemma preserves_randomUUID : preserves randomUUID.
Proof. by intros env w. Qed.

Lemma preserves_requireUser context : preserves (requireUser context).
Proof. intros env w. unfold requireUser. by destruct (locals context ≫= App.user). Qed.

Section calls.
Context {R : Type} `{StoredLaws R}.

Lemma preserves_select (P : R → Prop) `{∀ r, Decision (P r)} limit :
  preserves (select P limit).
Proof. by intros env w. Qed.

Lemma returning_world (l : list R) w : (returning l w).2 = w.
Proof. unfold returning. by case_decide. Qed.

Lemma preserves_insert values : preserves (insert (R:=R) values).
Proof.
  intros env w Hw. unfold insert.
  destruct (from_values _ values) as [r|]; [|done].
  case_decide as Htaken; [done|]. case_decide; [|done].
  rewrite returning_world. cbn.
  apply with_rows_consistent; [done|].
  apply unique_keys_snoc; [by apply rows_unique|done].
Qed.

Lemma preserves_delete (P : R → Prop) `{∀ r, Decision (P r)} : preserves (delete P).
Proof.
  intros env w Hw. unfold delete. case_decide; [done|].
  rewrite returning_world. cbn. apply with_rows_consistent; [done|].
  apply unique_keys_filter. by apply rows_unique.
Qed.

Lemma preserves_update values (P : R → Prop) `{∀ r, Decision (P r)} :
  (∀ r, primary_key (set_values values r) = primary_key r) →
  preserves (update values P).
Proof.
  intros Hkey env w Hw. unfold update. cbn zeta. case_decide; [|done].
  rewrite returning_world. cbn. apply with_rows_consistent; [done|].
  unfold unique_keys. rewrite keys_fmap; [by apply rows_unique|].
  intros x. by case_decide.
Qed.
End calls.

Ltac preserve :=
  repeat first
    [ apply preserves_bind; [|intros ?]
    | apply preserves_requireUser | apply preserves_newDate | apply preserves_randomUUID
    | apply preserves_select | apply preserves_insert | apply preserves_delete
    | apply preserves_ret | apply preserves_throw
    | match goal with
      | |- preserves (match ?x with _ => _ end) => destruct x
      | |- preserves (fmap _ _) => unfold fmap, M_fmap
      end ].

(** X16.  Every handler keeps the keys of every table unique: the
    invariant the lookups by id rely on. *)
Theorem handlers_keep_keys_unique context :
  (∀ input, preserves (createSession input context))
  ∧ (∀ input, preserves (updateSession input context))
  ∧ preserves (listSessions context)
  ∧ (∀ input, preserves (deleteSession input context))
  ∧ (∀ input, preserves (saveQuestion input context))
  ∧ (∀ input, preserves (deleteQuestion input context))
  ∧ (∀ input, preserves (saveResponse input context))
  ∧ (∀ input, preserves (listResponses input context)).
Proof.
  split_and!; intros.
  - unfold createSession. preserve.
  - unfold updateSession. preserve.
    apply preserves_update. intros row. world. by rewrite set_collect.
  - unfold listSessions. preserve.
  - unfold deleteSession. preserve.
  - unfold saveQuestion. preserve.
    apply preserves_update. intros row. world. by rewrite question_values_set.
  - unfold deleteQuestion. preserve.
  - unfold saveResponse. preserve.
    apply preserves_update. intros row. world. by rewrite response_values_set.
  - unfold listResponses. preserve.
Qed.

(** ** Callers that are not signed in *)

(** C10.  When the request context carries no user, each of the eight
    actions throws [UNAUTHORIZED] and leaves the world exactly as it
    found it: the database is unchanged and no data-access call has been
    issued (the log of calls is the same), nor the clock read. *)
Theorem unauthorized_before_any_call context env w :
  locals context ≫= App.user = None →
  (∀ input, createSession input context env w = (Throws unauthorized, w))
  ∧ (∀ input, updateSession input context env w = (Throws unauthorized, w))
  ∧ listSessions context env w = (Throws unauthorized, w)
  ∧ (∀ input, deleteSession input context env w = (Throws unauthorized, w))
  ∧ (∀ input, saveQuestion input context env w = (Throws unauthorized, w))
  ∧ (∀ input, deleteQuestion input context env w = (Throws unauthorized, w))
  ∧ (∀ input, saveResponse input context env w = (Throws unauthorized, w))
  ∧ (∀ input, listResponses input context env w = (Throws unauthorized, w)).
Proof.
  intros Hu. pose proof (requireUser_anonymous context env w Hu) as Hreq.
  split_and!; intros; by apply bind_throws.
Qed.

Lemma unauthorized_before_any_call_witness :
  createSession (backend_interview None) anonymous (ticking 1000) (start sample_db)
    = (Throws unauthorized, start sample_db)
  ∧ deleteSession {| DeleteSession.id := "s1" |} {| locals := None |} (ticking 1000)
      (start sample_db)
    = (Throws unauthorized, start sample_db).
Proof.
  split.
  - by apply (unauthorized_before_any_call anonymous).
  - by apply (unauthorized_before_any_call {| locals := None |}).
Defined.

(** * Further properties *)

(** ** Sessions: lookups that fail, updates that write, ids that are taken *)

(** X1.  A signed-in caller updates a session that is not theirs, or that
    does not exist: [updateSession] throws [NOT_FOUND] whatever fields
    are given; the database is as before, the one call issued is the
    lookup, and the clock has not been read. *)
Theorem updateSession_not_owned env w context user input :
  locals context ≫= App.user = Some user →
  (∀ s, s ∈ sessions (db w) → ¬ owned_session (UpdateSession.id input) user s) →
  ∃ w',
    updateSession input context env w
      = (Throws (ActionError NOT_FOUND "Session not found."), w')
    ∧ db w' = db w
    ∧ calls w' = calls w ++ [Select TSessions]
    ∧ ticks w' = ticks w.
Proof.
  intros Hu Hnone. rewrite (updateSession_run _ _ _ _ _ Hu). cbn zeta.
  rewrite (first_match_absent _ _ Hnone). by eexists.
Qed.

Lemma updateSession_not_owned_witness :
  session_row "s2" "B" ∈ sessions sample_db
  ∧ ∃ w',
      updateSession (retitle "s2" "Taken over") (signed_in "A") (ticking 1000)
        (start sample_db)
        = (Throws (ActionError NOT_FOUND "Session not found."), w')
      ∧ db w' = sample_db
      ∧ calls w' = [Select TSessions]
      ∧ ticks w' = 0%nat.
Proof.
  split; [compute_done|].
  apply (updateSession_not_owned (ticking 1000) (start sample_db) (signed_in "A")
           {| App.id := "A" |} (retitle "s2" "Taken over") eq_refl).
  apply Forall_forall. compute_done.
Defined.




(** X3.  [createSession] never overwrites: when the id the row is to
    carry is already the key of a session, whoever owns it, the call
    fails with the engine's error and the database is as before. *)
Theorem createSession_taken env w context user input :
  locals context ≫= App.user = Some user →
  session_id env w input ∈ keys (sessions (db w)) →
  ∃ w',
    createSession input context env w
      = (Throws (SqlError "UNIQUE constraint failed"), w')
    ∧ db w' = db w
    ∧ calls w' = calls w ++ [Insert TSessions].
Proof.
  intros Hu Htaken. rewrite (createSession_run _ _ _ _ _ Hu). cbn zeta.
  rewrite decide_True by done. by eexists.
Qed.

Lemma createSession_taken_witness :
  ∃ w',
    createSession (backend_interview (Some "s2")) (signed_in "A") (ticking 1000)
      (start sample_db)
      = (Throws (SqlError "UNIQUE constraint failed"), w')
    ∧ db w' = sample_db
    ∧ calls w' = [Insert TSessions].
Proof.
  apply (createSession_taken (ticking 1000) (start sample_db) (signed_in "A")
           {| App.id := "A" |} (backend_interview (Some "s2")) eq_refl).
  compute_done.
Defined.

(** ** Creating, then listing or deleting *)



(** X5.  A signed-in caller creates a session under an id that is free
    and that no stored question or response names as its session, with a
    duration that can be read back.  Deleting it by that id, as the same
    caller, gives back the row that was created and leaves the database
    exactly as it was before the two calls. *)
Theorem created_session_deleted env w context user input :
  locals context ≫= App.user = Some user →
  session_id env w input ∉ keys (sessions (db w)) →
  session_id env w input ∉ (InterviewQuestions.sessionId <$> questions (db w)) →
  session_id env w input ∉ (InterviewResponses.sessionId <$> responses (db w)) →
  (∀ n, CreateSession.durationMinutes input = Some n → safe_integer n) →
  ∃ row w1 w2,
    createSession input context env w = (Returns (Some row), w1)
    ∧ deleteSession {| DeleteSession.id := session_id env w input |} context env w1
      = (Returns row, w2)
    ∧ db w2 = db w.
Proof.
  intros Hu Hfree Hquestions Hresponses Hsafe.
  rewrite (createSession_run _ _ _ _ _ Hu). cbn zeta.
  rewrite decide_False by done.
  set (row := created user input _ _ _).
  assert (readable row) as Hreadable by (unfold readable; cbn; by apply readable_if_given).
  rewrite decide_True by done. eexists _, _, _. split; [reflexivity|].
  rewrite (deleteSession_run _ _ _ _ _ Hu). cbn zeta. world.
  assert (∀ s, s ∈ sessions (db w) →
               ¬ owned_session (session_id env w input) user s) as Hnone.
  { intros s Hs [Hid _]. apply Hfree. apply elem_of_keys. eauto. }
  cbn [DeleteSession.id].
  assert (owned_session (session_id env w input) user row) as Hrow by done.
  assert (filter (owned_session (session_id env w input) user) (sessions (db w) ++ [row])
          = [row]) as ->.
  { rewrite filter_app, filter_cons_True, filter_nil by done.
    by rewrite (proj1 (head_None _) (first_match_absent _ _ Hnone)). }
  assert (filter (λ s, ¬ owned_session (session_id env w input) user s)
            (sessions (db w) ++ [row]) = sessions (db w)) as ->.
  { rewrite filter_app, filter_cons_False, filter_nil, app_nil_r by (intros Hn; by apply Hn).
    by apply filter_all. }
  rewrite decide_False.
  2: { rewrite Exists_one. unfold session_referred. cbn. by intros [?|?]. }
  rewrite decide_True by by apply Forall_one.
  cbn. split; [reflexivity|]. by destruct (db w).
Qed.

Lemma created_session_deleted_witness :
  ∃ row w1 w2,
    createSession (timed_interview (Some "s9") 30) (signed_in "A") (ticking 1000)
      (start sample_db) = (Returns (Some row), w1)
    ∧ deleteSession {| DeleteSession.id := "s9" |} (signed_in "A") (ticking 1000) w1
      = (Returns row, w2)
    ∧ db w2 = sample_db.
Proof.
  apply (created_session_deleted (ticking 1000) (start sample_db) (signed_in "A")
           {| App.id := "A" |} (timed_interview (Some "s9") 30) eq_refl).
  - compute_done.
  - compute_done.
  - compute_done.
  - intros n [= <-]. compute_done.
Defined.

(** ** Listing *)



(** X7.  The two listing actions are read-only: whatever the context,
    the input and the outcome, [listSessions] and [listResponses] leave
    the database as it is and issue only lookups. *)
Theorem listing_reads_only context :
  reads_only (listSessions context)
  ∧ ∀ input, reads_only (listResponses input context).
Proof.
  destruct (locals context ≫= App.user) as [user|] eqn:Hu.
  - split; [|intros input]; intros env w.
    + rewrite (listSessions_run _ _ _ _ Hu). split; [done|].
      exists [Select TSessions]. split; [done|]. by repeat constructor.
    + rewrite (listResponses_run _ _ _ _ _ Hu). cbn zeta.
      destruct (truthy (input ≫= ListResponses.sessionId)) as [s|]; [case_decide|].
      * split; [done|]. exists [Select TSessions]. split; [done|]. by repeat constructor.
      * split; [done|]. exists [Select TSessions; Select TResponses].
        split; [cbn; by rewrite <- app_assoc|]. by repeat constructor.
      * split; [done|]. exists [Select TSessions; Select TResponses].
        split; [cbn; by rewrite <- app_assoc|]. by repeat constructor.
  - split; [|intros input]; intros env w.
    + unfold listSessions. rewrite bind_run, (requireUser_anonymous _ _ _ Hu).
      split; [done|]. exists []. split; [by rewrite app_nil_r|constructor].
    + unfold listResponses. rewrite bind_run, (requireUser_anonymous _ _ _ Hu).
      split; [done|]. exists []. split; [by rewrite app_nil_r|constructor].
Qed.

Lemma listing_reads_only_witness :
  db (listResponses None (signed_in "A") (ticking 1000) (start sample_db)).2 = sample_db
  ∧ db (listSessions (signed_in "B") (ticking 1000) (start sample_db)).2 = sample_db.
Proof.
  split.
  - apply (proj2 (listing_reads_only (signed_in "A")) None (ticking 1000) (start sample_db)).
  - apply (proj1 (listing_reads_only (signed_in "B")) (ticking 1000) (start sample_db)).
Defined.

(** ** Questions and responses: sessions that are not the caller's *)

(** X8.  A signed-in caller names a session that is not theirs, or that
    does not exist: [saveQuestion], [deleteQuestion] and [saveResponse]
    throw [NOT_FOUND] right after the lookup of the session.  The
    database is as before, neither the questions nor the responses have
    been read, and the clock has not been read. *)
Theorem session_not_owned env w context user session :
  locals context ≫= App.user = Some user →
  (∀ s, s ∈ sessions (db w) → ¬ owned_session session user s) →
  let refused {A} : Outcome A * World :=
    (Throws (ActionError NOT_FOUND "Session not found."),
     {| db := db w; ticks := ticks w; draws := draws w;
        calls := calls w ++ [Select TSessions] |}) in
  (∀ input, SaveQuestion.sessionId input = session →
            saveQuestion input context env w = refused)
  ∧ (∀ input, DeleteQuestion.sessionId input = session →
              deleteQuestion input context env w = refused)
  ∧ (∀ input, SaveResponse.sessionId input = session →
              saveResponse input context env w = refused).
Proof.
  intros Hu Hnone refused. split_and!; intros input <-.
  - by rewrite (saveQuestion_unowned _ _ _ _ _ Hu (first_match_absent _ _ Hnone)).
  - rewrite (deleteQuestion_run _ _ _ _ _ Hu). cbn zeta.
    by rewrite (first_match_absent _ _ Hnone).
  - by rewrite (saveResponse_unowned _ _ _ _ _ Hu (first_match_absent _ _ Hnone)).
Qed.

Lemma session_not_owned_witness :
  saveQuestion (question_for_s3 "q1") (signed_in "B") (ticking 1000) (start sample_db)
    = (Throws (ActionError NOT_FOUND "Session not found."),
       {| db := sample_db; ticks := 0; draws := 0; calls := [Select TSessions] |})
  ∧ deleteQuestion {| DeleteQuestion.id := "q1"; DeleteQuestion.sessionId := "s1" |}
      (signed_in "B") (ticking 1000) (start sample_db)
    = (Throws (ActionError NOT_FOUND "Session not found."),
       {| db := sample_db; ticks := 0; draws := 0; calls := [Select TSessions] |}).
Proof.
  split.
  - apply (session_not_owned (ticking 1000) (start sample_db) (signed_in "B")
             {| App.id := "B" |} "s3" eq_refl); [|reflexivity].
    apply Forall_forall. compute_done.
  - apply (session_not_owned (ticking 1000) (start sample_db) (signed_in "B")
             {| App.id := "B" |} "s1" eq_refl); [|reflexivity].
    apply Forall_forall. compute_done.
Defined.

(** ** Saving responses: the two paths *)



(** X10.  Whenever [saveResponse] succeeds on a given, non-empty id, it
    has found a response with that id in the input's session; the row
    returned keeps that id, takes the input's session, question and
    answer and the clock reading as [createdAt], takes the input's
    [score] and [feedback] where they are given and keeps the stored
    ones where they are not.  Rows with another id, and the other two
    tables, are left alone. *)
Theorem saveResponse_update env w context input id out w' :
  truthy (SaveResponse.id input) = Some id →
  saveResponse input context env w = (Returns out, w') →
  ∃ existing,
    out = Some (reanswered input (clockAt env (ticks w)) existing)
    ∧ existing ∈ responses (db w)
    ∧ InterviewResponses.id existing = Some id
    ∧ InterviewResponses.sessionId existing = SaveResponse.sessionId input
    ∧ responses (db w')
      = (λ r, if decide (InterviewResponses.id r = Some id)
              then reanswered input (clockAt env (ticks w)) r else r) <$> responses (db w)
    ∧ sessions (db w') = sessions (db w)
    ∧ questions (db w') = questions (db w).
Proof.
  intros Hid.
  destruct (locals context ≫= App.user) as [user|] eqn:Hu.
  2: { unfold saveResponse. rewrite bind_run, (requireUser_anonymous _ _ _ Hu). discriminate. }
  destruct (head (filter (owned_session (SaveResponse.sessionId input) user)
                    (sessions (db w)))) as [s|] eqn:Hs.
  2: { rewrite (saveResponse_unowned _ _ _ _ _ Hu Hs). discriminate. }
  destruct (head (filter (question_in (SaveResponse.questionId input)
                            (SaveResponse.sessionId input)) (questions (db w))))
    as [q|] eqn:Hq.
  2: { rewrite (saveResponse_unasked _ _ _ _ _ _ Hu Hs Hq). discriminate. }
  rewrite (saveResponse_run _ _ _ _ _ _ _ Hu Hs Hq). cbn zeta. rewrite Hid.
  destruct (head (filter _ (responses (db w)))) as [existing|] eqn:Hr; [|discriminate].
  case_decide as Hsame; [discriminate|]. case_decide; [|discriminate].
  apply first_match_Some in Hr as [Hk Hin].
  intros [= <- <-]. by exists existing.
Qed.

Lemma saveResponse_update_witness :
  ∃ out w',
    saveResponse resave_r1 (signed_in "A") (ticking 1000) (start sample_db)
      = (Returns out, w')
    ∧ out = Some (reanswered resave_r1 1000 (response_row (Some "r1") "s1" "q1"))
    ∧ InterviewResponses.score
        (reanswered resave_r1 1000 (response_row (Some "r1") "s1" "q1")) = Some 9
    ∧ InterviewResponses.feedback
        (reanswered resave_r1 1000 (response_row (Some "r1") "s1" "q1")) = None
    ∧ questions (db w') = questions sample_db.
Proof.
  destruct (saveResponse resave_r1 (signed_in "A") (ticking 1000) (start sample_db))
    as [[out|e] w'] eqn:Hrun; [|vm_compute in Hrun; discriminate Hrun].
  exists out, w'. split; [reflexivity|].
  destruct (saveResponse_update (ticking 1000) (start sample_db) (signed_in "A") resave_r1
              "r1" out w' eq_refl Hrun)
    as (existing & Hout & Hin & Hid & _ & _ & _ & Hq).
  assert (existing = response_row (Some "r1") "s1" "q1") as ->.
  { cbn in Hin. repeat (apply elem_of_cons in Hin as [->|Hin]); try discriminate; [done|].
    by apply elem_of_nil in Hin. }
  by split_and!.
Defined.

(** ** Failures, and other users' sessions *)

Lemma anonymous_throws {A} (f : App.User → M A) context env w :
  locals context ≫= App.user = None →
  (requireUser context ≫= f) env w = (Throws unauthorized, w).
Proof. intros Hu. by rewrite bind_run, (requireUser_anonymous _ _ _ Hu). Qed.

Ltac outcomes :=
  cbn zeta; repeat first [case_match | case_decide];
  intros; simplify_eq; try done.

(** X11.  No action is refused half-way: whenever one of the eight
    handlers throws [UNAUTHORIZED] or [NOT_FOUND], or the engine refuses
    a key that is taken or a reference that does not resolve, the
    database is the one the call started from.  (The one failure that
    follows a write is the error raised on reading back an integer that
    is too large.) *)
Theorem failures_leave_database context :
  (∀ input, atomic (createSession input context))
  ∧ (∀ input, atomic (updateSession input context))
  ∧ atomic (listSessions context)
  ∧ (∀ input, atomic (deleteSession input context))
  ∧ (∀ input, atomic (saveQuestion input context))
  ∧ (∀ input, atomic (deleteQuestion input context))
  ∧ (∀ input, atomic (saveResponse input context))
  ∧ (∀ input, atomic (listResponses input context)).
Proof.
  destruct (locals context ≫= App.user) as [user|] eqn:Hu.
  2: { split_and!; intros; intros env w e w';
       (unfold createSession, updateSession, listSessions, deleteSession, saveQuestion,
          deleteQuestion, saveResponse, listResponses);
       rewrite (anonymous_throws _ _ _ _ Hu); by intros [= _ <-]. }
  split_and!; intros; intros env w e w'.
  - rewrite (createSession_run _ _ _ _ _ Hu). outcomes.
  - rewrite (updateSession_run _ _ _ _ _ Hu). outcomes.
  - rewrite (listSessions_run _ _ _ _ Hu). outcomes.
  - rewrite (deleteSession_run _ _ _ _ _ Hu). outcomes.
  - destruct (head (filter (owned_session (SaveQuestion.sessionId input) user)
                      (sessions (db w)))) as [s|] eqn:Hs.
    + rewrite (saveQuestion_run _ _ _ _ _ _ Hu Hs). outcomes.
    + rewrite (saveQuestion_unowned _ _ _ _ _ Hu Hs). outcomes.
  - rewrite (deleteQuestion_run _ _ _ _ _ Hu). outcomes.
  - destruct (head (filter (owned_session (SaveResponse.sessionId input) user)
                      (sessions (db w)))) as [s|] eqn:Hs.
    + destruct (head (filter (question_in (SaveResponse.questionId input)
                                (SaveResponse.sessionId input)) (questions (db w))))
        as [q|] eqn:Hq.
      * rewrite (saveResponse_run _ _ _ _ _ _ _ Hu Hs Hq). outcomes.
      * rewrite (saveResponse_unasked _ _ _ _ _ _ Hu Hs Hq). outcomes.
    + rewrite (saveResponse_unowned _ _ _ _ _ Hu Hs). outcomes.
  - rewrite (listResponses_run _ _ _ _ _ Hu). outcomes.
Qed.

Lemma failures_leave_database_witness :
  ∃ e w',
    createSession (backend_interview (Some "s1")) (signed_in "B") (ticking 1000)
      (start sample_db) = (Throws e, w')
    ∧ db w' = sample_db.
Proof.
  destruct (createSession (backend_interview (Some "s1")) (signed_in "B") (ticking 1000)
              (start sample_db)) as [[out|e] w'] eqn:Hrun;
    [vm_compute in Hrun; discriminate Hrun|].
  exists e, w'. split; [reflexivity|].
  apply (proj1 (failures_leave_database (signed_in "B")) (backend_interview (Some "s1"))
           (ticking 1000) (start sample_db) e w' Hrun).
  vm_compute in Hrun. injection Hrun as <- _. discriminate.
Defined.

(** X12.  A signed-in caller cannot touch another user's sessions: after
    any of the eight handlers, whatever the input and the outcome, the
    sessions whose [userId] is not the caller's are the same rows, in the
    same order, as before. *)
Theorem other_users_sessions_spared context user :
  locals context ≫= App.user = Some user →
  (∀ input, spares_others user (createSession input context))
  ∧ (∀ input, spares_others user (updateSession input context))
  ∧ spares_others user (listSessions context)
  ∧ (∀ input, spares_others user (deleteSession input context))
  ∧ (∀ input, spares_others user (saveQuestion input context))
  ∧ (∀ input, spares_others user (deleteQuestion input context))
  ∧ (∀ input, spares_others user (saveResponse input context))
  ∧ (∀ input, spares_others user (listResponses input context)).
Proof.
  intros Hu. split_and!; intros; intros env w.
  - rewrite (createSession_run _ _ _ _ _ Hu). cbn zeta. case_decide; [done|].
    case_decide; cbn [snd]; world;
      (rewrite filter_app, filter_cons_False, filter_nil, app_nil_r; [done|]);
      intros Hforeign; by apply Hforeign.
  - rewrite (updateSession_run _ _ _ _ _ Hu). outcomes; cbn [snd]; world;
      apply filter_rewritten; intros x _ [_ Hmine]; split; intros Hforeign;
      by apply Hforeign.
  - by rewrite (listSessions_run _ _ _ _ Hu).
  - rewrite (deleteSession_run _ _ _ _ _ Hu). outcomes; cbn [snd]; world;
      apply filter_removed; intros x _ [_ Hmine] Hforeign; by apply Hforeign.
  - destruct (head (filter (owned_session (SaveQuestion.sessionId input) user)
                      (sessions (db w)))) as [s|] eqn:Hs.
    + rewrite (saveQuestion_run _ _ _ _ _ _ Hu Hs). outcomes.
    + by rewrite (saveQuestion_unowned _ _ _ _ _ Hu Hs).
  - rewrite (deleteQuestion_run _ _ _ _ _ Hu). outcomes.
  - destruct (head (filter (owned_session (SaveResponse.sessionId input) user)
                      (sessions (db w)))) as [s|] eqn:Hs.
    + destruct (head (filter (question_in (SaveResponse.questionId input)
                                (SaveResponse.sessionId input)) (questions (db w))))
        as [q|] eqn:Hq.
      * rewrite (saveResponse_run _ _ _ _ _ _ _ Hu Hs Hq). outcomes.
      * by rewrite (saveResponse_unasked _ _ _ _ _ _ Hu Hs Hq).
    + by rewrite (saveResponse_unowned _ _ _ _ _ Hu Hs).
  - rewrite (listResponses_run _ _ _ _ _ Hu). outcomes.
Qed.

Lemma other_users_sessions_spared_witness :
  filter (foreign {| App.id := "A" |})
    (sessions (db (deleteSession {| DeleteSession.id := "s2" |} (signed_in "A")
                     (ticking 1000) (start sample_db)).2))
  = [session_row "s2" "B"].
Proof.
  rewrite (proj1 (proj2 (proj2 (proj2
             (other_users_sessions_spared (signed_in "A") {| App.id := "A" |} eq_refl))))
             {| DeleteSession.id := "s2" |} (ticking 1000) (start sample_db)).
  reflexivity.
Defined.

(** ** Questions and responses: what a call can reach *)

(** X13.  What [saveQuestion], [deleteQuestion] and [saveResponse] write
    stays inside the session the input names: the questions (responses)
    of every other session are the same rows, in the same order, as
    before; and the database changes at all only if that session is one
    of the caller's. *)
Theorem writes_stay_in_session env w context user :
  locals context ≫= App.user = Some user →
  (∀ input,
     unique_keys (questions (db w)) →
     let w' := (saveQuestion input context env w).2 in
     filter (λ q, InterviewQuestions.sessionId q ≠ SaveQuestion.sessionId input)
       (questions (db w'))
     = filter (λ q, InterviewQuestions.sessionId q ≠ SaveQuestion.sessionId input)
         (questions (db w))
     ∧ (db w' ≠ db w → owns (db w) user (SaveQuestion.sessionId input)))
  ∧ (∀ input,
     let w' := (deleteQuestion input context env w).2 in
     filter (λ q, InterviewQuestions.sessionId q ≠ DeleteQuestion.sessionId input)
       (questions (db w'))
     = filter (λ q, InterviewQuestions.sessionId q ≠ DeleteQuestion.sessionId input)
         (questions (db w))
     ∧ (db w' ≠ db w → owns (db w) user (DeleteQuestion.sessionId input)))
  ∧ (∀ input,
     unique_keys (responses (db w)) →
     let w' := (saveResponse input context env w).2 in
     filter (λ r, InterviewResponses.sessionId r ≠ SaveResponse.sessionId input)
       (responses (db w'))
     = filter (λ r, InterviewResponses.sessionId r ≠ SaveResponse.sessionId input)
         (responses (db w))
     ∧ (db w' ≠ db w → owns (db w) user (SaveResponse.sessionId input))).
Proof.
  intros Hu. split_and!.
  - intros input Huniq.
    destruct (head (filter (owned_session (SaveQuestion.sessionId input) user)
                      (sessions (db w)))) as [s|] eqn:Hs.
    2: { by rewrite (saveQuestion_unowned _ _ _ _ _ Hu Hs). }
    cbn zeta. split; [|intros _; by eapply owned_session_owns].
    rewrite (saveQuestion_run _ _ _ _ _ _ Hu Hs). cbn zeta.
    destruct (truthy (SaveQuestion.id input)) as [id|].
    + destruct (head (filter _ (questions (db w)))) as [existing|] eqn:Hq; [|done].
      apply first_match_Some in Hq as [Hk Hin].
      case_decide as Hsame; [done|].
      case_decide; cbn [snd]; world; apply filter_rewritten; intros x Hx Hkx;
        (assert (x = existing) as -> by by eapply (unique_keys_inj (questions (db w))));
        split; intros Hn; by apply Hn.
    + case_decide; cbn [snd]; world;
        (rewrite filter_app, filter_cons_False, filter_nil, app_nil_r; [done|]);
        intros Hn; by apply Hn.
  - intros input. cbn zeta. rewrite (deleteQuestion_run _ _ _ _ _ Hu). cbn zeta.
    destruct (head (filter _ (sessions (db w)))) as [s|] eqn:Hs; [|done].
    split; [|intros _; by eapply owned_session_owns].
    outcomes; cbn [snd]; world; apply filter_removed; intros x _ [_ Hsid] Hn;
      by apply Hn.
  - intros input Huniq.
    destruct (head (filter (owned_session (SaveResponse.sessionId input) user)
                      (sessions (db w)))) as [s|] eqn:Hs.
    2: { by rewrite (saveResponse_unowned _ _ _ _ _ Hu Hs). }
    cbn zeta. split; [|intros _; by eapply owned_session_owns].
    destruct (head (filter (question_in (SaveResponse.questionId input)
                              (SaveResponse.sessionId input)) (questions (db w))))
      as [q|] eqn:Hq.
    2: { by rewrite (saveResponse_unasked _ _ _ _ _ _ Hu Hs Hq). }
    rewrite (saveResponse_run _ _ _ _ _ _ _ Hu Hs Hq). cbn zeta.
    destruct (truthy (SaveResponse.id input)) as [id|].
    + destruct (head (filter _ (responses (db w)))) as [existing|] eqn:Hr; [|done].
      apply first_match_Some in Hr as [Hk Hin].
      case_decide as Hsame; [done|].
      case_decide; cbn [snd]; world; apply filter_rewritten; intros x Hx Hkx;
        (assert (x = existing) as -> by by eapply (unique_keys_inj (responses (db w))));
        split; intros Hn; by apply Hn.
    + case_decide; cbn [snd]; world;
        (rewrite filter_app, filter_cons_False, filter_nil, app_nil_r; [done|]);
        intros Hn; by apply Hn.
Qed.

Lemma writes_stay_in_session_witness :
  filter (λ q, InterviewQuestions.sessionId q ≠ "s1")
    (questions (db (saveQuestion resave_q1 (signed_in "A") (ticking 1000)
                      (start sample_db)).2))
  = [question_row (Some "q2") "s2"].
Proof.
  destruct (writes_stay_in_session (ticking 1000) (start sample_db) (signed_in "A")
              {| App.id := "A" |} eq_refl) as (Hsave & _ & _).
  destruct (Hsave resave_q1 sample_questions_unique) as [Hkept _].
  etrans; [exact Hkept|]. reflexivity.
Defined.
(** X14.  A question or a response stored with an empty id is out of
    reach: no handler, whatever the caller, the input and the outcome,
    removes or alters such a row.  (They are the rows that [saveQuestion]
    and [saveResponse] insert.) *)
Theorem unkeyed_rows_stay context :
  (∀ input, keeps_unkeyed (createSession input context))
  ∧ (∀ input, keeps_unkeyed (updateSession input context))
  ∧ keeps_unkeyed (listSessions context)
  ∧ (∀ input, keeps_unkeyed (deleteSession input context))
  ∧ (∀ input, keeps_unkeyed (saveQuestion input context))
  ∧ (∀ input, keeps_unkeyed (deleteQuestion input context))
  ∧ (∀ input, keeps_unkeyed (saveResponse input context))
  ∧ (∀ input, keeps_unkeyed (listResponses input context)).
Proof.
  destruct (locals context ≫= App.user) as [user|] eqn:Hu.
  2: { split_and!; intros; intros env w;
       (unfold createSession, updateSession, listSessions, deleteSession, saveQuestion,
          deleteQuestion, saveResponse, listResponses);
       by rewrite (anonymous_throws _ _ _ _ Hu). }
  split_and!; intros; intros env w.
  - rewrite (createSession_run _ _ _ _ _ Hu). outcomes.
  - rewrite (updateSession_run _ _ _ _ _ Hu). outcomes.
  - by rewrite (listSessions_run _ _ _ _ Hu).
  - rewrite (deleteSession_run _ _ _ _ _ Hu). outcomes.
  - destruct (head (filter (owned_session (SaveQuestion.sessionId input) user)
                      (sessions (db w)))) as [s|] eqn:Hs.
    2: { by rewrite (saveQuestion_unowned _ _ _ _ _ Hu Hs). }
    rewrite (saveQuestion_run _ _ _ _ _ _ Hu Hs). cbn zeta.
    destruct (truthy (SaveQuestion.id input)) as [id|].
    + destruct (head (filter _ (questions (db w)))); [|done].
      case_decide; [done|].
      case_decide; cbn [snd]; world; (split; [|done]);
        (rewrite filter_rewritten; [done|]);
        intros x _ Hk; unfold unkeyed; cbn; rewrite Hk; by split.
    + case_decide; cbn [snd]; world; (split; [apply prefix_snoc_filter|done]).
  - rewrite (deleteQuestion_run _ _ _ _ _ Hu). cbn zeta.
    destruct (head (filter _ (sessions (db w)))); [|done].
    outcomes; cbn [snd]; world; (split; [|done]);
      (rewrite filter_removed; [done|]); intros x _ [Hk _]; unfold unkeyed; cbn;
      by rewrite Hk.
  - destruct (head (filter (owned_session (SaveResponse.sessionId input) user)
                      (sessions (db w)))) as [s|] eqn:Hs.
    2: { by rewrite (saveResponse_unowned _ _ _ _ _ Hu Hs). }
    destruct (head (filter (question_in (SaveResponse.questionId input)
                              (SaveResponse.sessionId input)) (questions (db w))))
      as [q|] eqn:Hq.
    2: { by rewrite (saveResponse_unasked _ _ _ _ _ _ Hu Hs Hq). }
    rewrite (saveResponse_run _ _ _ _ _ _ _ Hu Hs Hq). cbn zeta.
    destruct (truthy (SaveResponse.id input)) as [id|].
    + destruct (head (filter _ (responses (db w)))); [|done].
      case_decide; [done|].
      case_decide; cbn [snd]; world; (split; [done|]);
        (rewrite filter_rewritten; [done|]);
        intros x _ Hk; unfold unkeyed; cbn; rewrite Hk; by split.
    + case_decide; cbn [snd]; world; (split; [done|apply prefix_snoc_filter]).
  - rewrite (listResponses_run _ _ _ _ _ Hu). cbn zeta.
    destruct (truthy _); [by case_decide|done].
Qed.

(** ** The loop that builds the patch *)

Lemma collect_from (acc : JsObject) rest k :
  foldl (λ updateData '(key, value),
           if defined value then <[key := value]> updateData else updateData) acc rest !! k
  = match collect (filter (λ kv, kv.1 = k) rest) !! k with
    | Some v => Some v
    | None => acc !! k
    end.
Proof.
  unfold collect. revert acc. induction rest as [|[key value] rest IH] using rev_ind; intros acc.
  - cbn. by rewrite lookup_empty.
  - rewrite filter_app, !foldl_app. cbn [foldl].
    destruct (decide (key = k)) as [->|Hne].
    + rewrite filter_cons_True by done. rewrite filter_nil. cbn [foldl].
      destruct (defined value).
      * by rewrite !lookup_insert_eq.
      * apply IH.
    + rewrite filter_cons_False, filter_nil by done. cbn [foldl].
      destruct (defined value); [rewrite lookup_insert_ne by done|]; apply IH.
Qed.

(** X15.  The object [updateSession] builds from the entries of [rest]
    holds exactly the entries that are not [undefined]: each of its
    properties is a defined entry of [rest]; an entry of [rest] that is
    defined is in it, when no key occurs twice; and it is empty exactly
    when every entry is [undefined]. *)
Theorem collect_defined_entries (rest : list (string * JsVal)) :
  (∀ k v, collect rest !! k = Some v → defined v = true ∧ (k, v) ∈ rest)
  ∧ (NoDup rest.*1 →
     ∀ k v, (k, v) ∈ rest → defined v = true → collect rest !! k = Some v)
  ∧ (size (collect rest) = 0%nat ↔ Forall (λ kv, defined kv.2 = false) rest).
Proof.
  assert (∀ k v, collect rest !! k = Some v → defined v = true ∧ (k, v) ∈ rest) as Hsound.
  { unfold collect. induction rest as [|[key value] rest IH] using rev_ind; intros k v.
    - cbn. by rewrite lookup_empty.
    - rewrite foldl_app. cbn [foldl]. destruct (defined value) eqn:Hdef.
      + destruct (decide (key = k)) as [->|Hne].
        * rewrite lookup_insert_eq. intros [= ->]. split; [done|].
          apply elem_of_app. right. left.
        * rewrite lookup_insert_ne by done. intros [? ?]%IH. split; [done|].
          apply elem_of_app. by left.
      + intros [? ?]%IH. split; [done|]. apply elem_of_app. by left. }
  assert (NoDup rest.*1 →
          ∀ k v, (k, v) ∈ rest → defined v = true → collect rest !! k = Some v) as Hcomplete.
  { clear Hsound. unfold collect. induction rest as [|[key value] rest IH] using rev_ind;
      intros Hnd k v Hin Hdef.
    - by apply elem_of_nil in Hin.
    - rewrite fmap_app in Hnd. apply NoDup_app in Hnd as (Hnd & Hfresh & _).
      rewrite foldl_app. cbn [foldl].
      apply elem_of_app in Hin as [Hin|Hin].
      + assert (key ≠ k) as Hne.
        { intros ->. apply (Hfresh k); [|left].
          apply list_elem_of_fmap. by exists (k, v). }
        destruct (defined value); [rewrite lookup_insert_ne by done|]; by apply IH.
      + apply list_elem_of_singleton in Hin as [= -> ->].
        rewrite Hdef. apply lookup_insert_eq. }
  split_and!; [done|done|].
  rewrite map_size_empty_iff. split.
  - intros Hempty. apply Forall_forall. intros [k v] Hin. cbn.
    destruct (defined v) eqn:Hdef; [|done]. exfalso.
    assert (collect (filter (λ kv, kv.1 = k) rest) !! k = None → False) as Hsome.
    { clear Hcomplete Hsound Hempty. unfold collect.
      induction rest as [|[key value] rest IH] using rev_ind; [by apply elem_of_nil in Hin|].
      rewrite filter_app, foldl_app.
      apply elem_of_app in Hin as [Hin|Hin].
      - destruct (decide (key = k)) as [->|Hne].
        + rewrite filter_cons_True, filter_nil by done. cbn [foldl].
          destruct (defined value); [by rewrite lookup_insert_eq|by apply IH].
        + rewrite filter_cons_False, filter_nil by done. by apply IH.
      - apply list_elem_of_singleton in Hin as [= -> ->].
        rewrite filter_cons_True, filter_nil by done. cbn [foldl].
        rewrite Hdef. by rewrite lookup_insert_eq. }
    apply Hsome. pose proof (collect_from ∅ rest k) as Hk.
    fold (collect rest) in Hk. rewrite Hempty, !lookup_empty in Hk.
    by destruct (collect (filter _ rest) !! k).
  - intros Hall. apply map_eq. intros k. rewrite lookup_empty.
    destruct (collect rest !! k) as [v|] eqn:Hk; [|done].
    apply Hsound in Hk as [Hdef Hin].
    rewrite Forall_forall in Hall. specialize (Hall _ Hin). cbn in Hall. congruence.
Qed.

Lemma collect_defined_entries_witness :
  collect (UpdateSession.rest (retitle "s1" "Updated")) !! "title" = Some (JText "Updated")
  ∧ collect (UpdateSession.rest (retitle "s1" "Updated")) !! "mode" = None.
Proof.
  destruct (collect_defined_entries (UpdateSession.rest (retitle "s1" "Updated")))
    as (Hsound & Hcomplete & _).
  split.
  - apply Hcomplete; [compute_done|cbn; left|reflexivity].
  - destruct (collect _ !! "mode") as [v|] eqn:Hmode; [|done].
    apply Hsound in Hmode as [Hdef Hin]. exfalso. cbn in Hin.
    repeat (apply elem_of_cons in Hin as [Hin|Hin]; [by simplify_eq|]).
    by apply elem_of_nil in Hin.
Defined.

(** ** The invariant on keys, at work *)

Lemma handlers_keep_keys_unique_witness :
  consistent (db (createSession (backend_interview None) (signed_in "A") (ticking 1000)
                    (start sample_db)).2)
  ∧ consistent (db (deleteQuestion
                      {| DeleteQuestion.id := "q1"; DeleteQuestion.sessionId := "s1" |}
                      (signed_in "A") (ticking 1000) (start sample_db)).2).
Proof.
  assert (consistent sample_db) as Hsample.
  { split_and!; [exact sample_sessions_unique|exact sample_questions_unique
                |exact sample_responses_unique]. }
  destruct (handlers_keep_keys_unique (signed_in "A"))
    as (Hcreate & _ & _ & _ & _ & Hdelete & _).
  split; [by apply Hcreate|by apply Hdelete].
Defined.

(** ** Saving under an id that no row has *)



(** ** References that resolve *)

Lemma resolved_sessions d l :
  resolved d →
  (∀ k, Some k ∈ InterviewSessions.id <$> sessions d →
        Some k ∈ (InterviewSessions.id <$> l)
        ∨ ((k ∉ (InterviewQuestions.sessionId <$> questions d))
           ∧ (k ∉ (InterviewResponses.sessionId <$> responses d)))) →
  resolved {| sessions := l; questions := questions d; responses := responses d |}.
Proof.
  intros [Hq Hr] Hkeys. rewrite Forall_forall in Hq. rewrite Forall_forall in Hr.
  split; apply Forall_forall; cbn.
  - intros q Hin. unfold question_resolves. cbn.
    destruct (Hkeys _ (Hq q Hin)) as [?|[Hno _]]; [done|].
    destruct Hno. apply list_elem_of_fmap. by exists q.
  - intros r Hin. destruct (Hr r Hin) as [Hs Hquestion]. split; [|done]. cbn.
    destruct (Hkeys _ Hs) as [?|[_ Hno]]; [done|].
    destruct Hno. apply list_elem_of_fmap. by exists r.
Qed.

Lemma resolved_questions d l :
  resolved d →
  (∀ q, q ∈ l → question_resolves d q) →
  (∀ k, Some k ∈ InterviewQuestions.id <$> questions d →
        Some k ∈ (InterviewQuestions.id <$> l)
        ∨ k ∉ (InterviewResponses.questionId <$> responses d)) →
  resolved {| sessions := sessions d; questions := l; responses := responses d |}.
Proof.
  intros [Hq Hr] Hnew Hkeys. rewrite Forall_forall in Hr.
  split; apply Forall_forall; cbn.
  - intros q Hin. by apply Hnew.
  - intros r Hin. destruct (Hr r Hin) as [Hs Hquestion]. split; [done|]. cbn.
    destruct (Hkeys _ Hquestion) as [?|Hno]; [done|].
    destruct Hno. apply list_elem_of_fmap. by exists r.
Qed.

Lemma resolved_responses d l :
  resolved d →
  (∀ r, r ∈ l → response_resolves d r) →
  resolved {| sessions := sessions d; questions := questions d; responses := l |}.
Proof.
  intros [Hq Hr] Hnew. split; [done|]. apply Forall_forall. intros r Hin. by apply Hnew.
Qed.

Lemma fmap_rewritten {A B} (key : A → B) (P : A → Prop) `{∀ x, Decision (P x)}
    (f : A → A) (l : list A) :
  (∀ x, key (f x) = key x) →
  key <$> ((λ x, if decide (P x) then f x else x) <$> l) = key <$> l.
Proof.
  intros Hkey. rewrite <- list_fmap_compose. apply list_fmap_ext.
  intros i x _. cbn. by case_decide.
Qed.

Lemma elem_of_rewritten {A} (P : A → Prop) `{∀ x, Decision (P x)} (f : A → A)
    (l : list A) y :
  y ∈ (λ x, if decide (P x) then f x else x) <$> l → y ∈ l ∨ ∃ x, x ∈ l ∧ y = f x.
Proof.
  intros (x & -> & Hx)%list_elem_of_fmap. case_decide; [right|left]; eauto.
Qed.

Lemma key_not_removed {A} (key : A → option string) (P : A → Prop)
    `{∀ x, Decision (P x)} (refers : list string) (l : list A) k :
  ¬ Exists (λ x, match key x with Some k => k ∈ refers | None => False end) (filter P l) →
  Some k ∈ key <$> l →
  Some k ∈ (key <$> filter (λ x, ¬ P x) l) ∨ k ∉ refers.
Proof.
  intros Hfree (x & Hk & Hx)%list_elem_of_fmap.
  destruct (decide (P x)) as [HP|HP].
  - right. intros Hin. apply Hfree. apply Exists_exists. exists x.
    split; [by apply list_elem_of_filter|]. by rewrite <- Hk.
  - left. apply list_elem_of_fmap. exists x. split; [done|]. by apply list_elem_of_filter.
Qed.

(** X18.  Every handler keeps the references of the schema resolved:
    when each question names a stored session and each response a stored
    session and a stored question before the call, the same holds after
    it, whatever the caller, the input and the outcome. *)
Theorem handlers_keep_references context :
  (∀ input, keeps_references (createSession input context))
  ∧ (∀ input, keeps_references (updateSession input context))
  ∧ keeps_references (listSessions context)
  ∧ (∀ input, keeps_references (deleteSession input context))
  ∧ (∀ input, keeps_references (saveQuestion input context))
  ∧ (∀ input, keeps_references (deleteQuestion input context))
  ∧ (∀ input, keeps_references (saveResponse input context))
  ∧ (∀ input, keeps_references (listResponses input context)).
Proof.
  destruct (locals context ≫= App.user) as [user|] eqn:Hu.
  2: { split_and!; intros; intros env w;
       (unfold createSession, updateSession, listSessions, deleteSession, saveQuestion,
          deleteQuestion, saveResponse, listResponses);
       by rewrite (anonymous_throws _ _ _ _ Hu). }
  split_and!; intros; intros env w Hres.
  - rewrite (createSession_run _ _ _ _ _ Hu). cbn zeta. case_decide; [done|].
    case_decide; cbn [snd]; world; apply resolved_sessions; try done;
      intros k Hk; left; rewrite fmap_app; apply elem_of_app; by left.
  - rewrite (updateSession_run _ _ _ _ _ Hu). outcomes; cbn [snd]; world;
      apply resolved_sessions; try done; intros k Hk; left; by rewrite fmap_rewritten.
  - by rewrite (listSessions_run _ _ _ _ Hu).
  - rewrite (deleteSession_run _ _ _ _ _ Hu). cbn zeta.
    case_decide as Hfree; [done|].
    assert (resolved
              {| sessions := filter (λ s, ¬ owned_session (DeleteSession.id input) user s)
                               (sessions (db w));
                 questions := questions (db w); responses := responses (db w) |}) as Hgone.
    { apply resolved_sessions; [done|]. intros k Hk.
      destruct (decide (k ∈ (InterviewQuestions.sessionId <$> questions (db w)))) as [Hq|Hq];
        [|destruct (decide (k ∈ (InterviewResponses.sessionId <$> responses (db w))))
            as [Hr|Hr]; [|by right]].
      - left. apply list_elem_of_fmap in Hk as (s & Hks & Hs).
        apply list_elem_of_fmap. exists s. split; [done|]. apply list_elem_of_filter.
        split; [|done]. intros Hown. apply Hfree. apply Exists_exists. exists s.
        split; [by apply list_elem_of_filter|]. unfold session_referred.
        rewrite <- Hks. by left.
      - left. apply list_elem_of_fmap in Hk as (s & Hks & Hs).
        apply list_elem_of_fmap. exists s. split; [done|]. apply list_elem_of_filter.
        split; [|done]. intros Hown. apply Hfree. apply Exists_exists. exists s.
        split; [by apply list_elem_of_filter|]. unfold session_referred.
        rewrite <- Hks. by right. }
    outcomes.
  - destruct (head (filter (owned_session (SaveQuestion.sessionId input) user)
                      (sessions (db w)))) as [s|] eqn:Hs.
    2: { by rewrite (saveQuestion_unowned _ _ _ _ _ Hu Hs). }
    pose proof (session_key_present _ _ _ _ Hs) as Hkey.
    rewrite (saveQuestion_run _ _ _ _ _ _ Hu Hs). cbn zeta.
    destruct (truthy (SaveQuestion.id input)) as [id|].
    + destruct (head (filter _ (questions (db w)))) as [existing|] eqn:Hq; [|done].
      case_decide as Hsame; [done|].
      case_decide; cbn [snd]; world; apply resolved_questions; try done.
      all: try (intros k Hk; left; by rewrite fmap_rewritten).
      all: intros q [Hin|(x & Hx & ->)]%elem_of_rewritten;
        [destruct Hres as [Hall _]; rewrite Forall_forall in Hall; by apply Hall|done].
    + case_decide; cbn [snd]; world; apply resolved_questions; try done.
      all: try (intros k Hk; left; rewrite fmap_app; apply elem_of_app; by left).
      all: intros q [Hin|Hin%list_elem_of_singleton]%elem_of_app;
        [destruct Hres as [Hall _]; rewrite Forall_forall in Hall; by apply Hall
        |by subst q].
  - rewrite (deleteQuestion_run _ _ _ _ _ Hu). cbn zeta.
    destruct (head (filter _ (sessions (db w)))) as [s|] eqn:Hs; [|done].
    case_decide as Hfree; [done|].
    assert (resolved
              {| sessions := sessions (db w);
                 questions :=
                   filter (λ q, ¬ question_in (DeleteQuestion.id input)
                                    (DeleteQuestion.sessionId input) q)
                     (questions (db w));
                 responses := responses (db w) |}) as Hgone.
    { apply resolved_questions; [done| |].
      - intros q [_ Hin]%list_elem_of_filter.
        destruct Hres as [Hall _]. rewrite Forall_forall in Hall. by apply Hall.
      - intros k Hk. by apply (key_not_removed InterviewQuestions.id _ _ _ k Hfree). }
    outcomes.
  - destruct (head (filter (owned_session (SaveResponse.sessionId input) user)
                      (sessions (db w)))) as [s|] eqn:Hs.
    2: { by rewrite (saveResponse_unowned _ _ _ _ _ Hu Hs). }
    destruct (head (filter (question_in (SaveResponse.questionId input)
                              (SaveResponse.sessionId input)) (questions (db w))))
      as [q|] eqn:Hq.
    2: { by rewrite (saveResponse_unasked _ _ _ _ _ _ Hu Hs Hq). }
    pose proof (session_key_present _ _ _ _ Hs) as Hkey.
    pose proof (question_key_present _ _ _ _ Hq) as Hqkey.
    rewrite (saveResponse_run _ _ _ _ _ _ _ Hu Hs Hq). cbn zeta.
    destruct (truthy (SaveResponse.id input)) as [id|].
    + destruct (head (filter _ (responses (db w)))) as [existing|] eqn:Hr; [|done].
      case_decide as Hsame; [done|].
      case_decide; cbn [snd]; world; apply resolved_responses; try done.
      all: intros r [Hin|(x & Hx & ->)]%elem_of_rewritten;
        [destruct Hres as [_ Hall]; rewrite Forall_forall in Hall; by apply Hall|done].
    + case_decide; cbn [snd]; world; apply resolved_responses; try done.
      all: intros r [Hin|Hin%list_elem_of_singleton]%elem_of_app;
        [destruct Hres as [_ Hall]; rewrite Forall_forall in Hall; by apply Hall
        |by subst r].
  - rewrite (listResponses_run _ _ _ _ _ Hu). outcomes.
Qed.

Lemma handlers_keep_references_witness :
  resolved (db (deleteSession {| DeleteSession.id := "s3" |} (signed_in "A")
                  (ticking 1000) (start sample_db)).2)
  ∧ resolved (db (saveResponse (scored_response 7) (signed_in "A") (ticking 1000)
                    (start sample_db)).2).
Proof.
  assert (resolved sample_db) as Hsample by (split; compute_done).
  destruct (handlers_keep_references (signed_in "A"))
    as (_ & _ & _ & Hdelete & _ & _ & Hsave & _).
  split; [by apply Hdelete|by apply Hsave].
Defined.

